(** * secure-the-mint: the commitment tree and its unwinding

    A shallow embedding of [secure_the_mint/secure_the_bag.py] and
    [secure_the_mint/unwind_the_bag.py]:

    - [batch_the_bag], [secure_the_bag] (the tree builder and its parent
      lookup table),
    - [parent_of_puzzle_hash] (the chain resolver),
    - [get_unwind], [unwind_the_bag] (the unwind planner),
    - [unspent_coin_exists], [wait_for_unspent_coin], [wait_for_coin_spend]
      (polling the full node),
    - [read_metadata_csv] (the metadata rows).

    Python byte strings are lists of bytes, Python integers are [Z], the
    dictionary keyed by [puzzle_hash.hex()] is a [gmap string _].  The two
    hash functions and the CLVM integer encoding come from the chia and clvm
    libraries; the development is parametric in them. *)

From Stdlib Require Import ZArith List Lia Strings.Byte Strings.Ascii Strings.String.
From stdpp Require Import gmap strings list fin_maps.

Local Open Scope Z_scope.

#[global] Instance byte_eq_decision : EqDecision byte := Byte.byte_eq_dec.

(** ** Byte strings and [bytes.hex()] *)

Definition hex_digit (n : N) : ascii :=
  match n with
  | 0 => "0" | 1 => "1" | 2 => "2" | 3 => "3" | 4 => "4" | 5 => "5"
  | 6 => "6" | 7 => "7" | 8 => "8" | 9 => "9" | 10 => "a" | 11 => "b"
  | 12 => "c" | 13 => "d" | 14 => "e" | _ => "f"
  end%N%char.

Fixpoint hex (bs : list byte) : string :=
  match bs with
  | [] => EmptyString
  | b :: rest =>
      let n := Byte.to_N b in
      String (hex_digit (n / 16)) (String (hex_digit (n mod 16)) (hex rest))
  end.

(** The inverse of [hex_digit] on its image, used only to show that [hex]
    loses no information. *)
Definition hex_value (c : ascii) : N :=
  match c with
  | "0" => 0 | "1" => 1 | "2" => 2 | "3" => 3 | "4" => 4 | "5" => 5
  | "6" => 6 | "7" => 7 | "8" => 8 | "9" => 9 | "a" => 10 | "b" => 11
  | "c" => 12 | "d" => 13 | "e" => 14 | _ => 15
  end%N%char.

Definition unhex_byte (hi lo : ascii) : option byte :=
  Byte.of_N (hex_value hi * 16 + hex_value lo).

(** ** CLVM programs and the Python values handed to [Program.to] *)

Inductive Program : Type :=
  | Atom (a : list byte)
  | Cons (first rest : Program).

#[global] Instance Program_eq_decision : EqDecision Program.
Proof. solve_decision. Defined.

#[warnings="-register-all"] Inductive PyValue : Type :=
  | PyInt (z : Z)
  | PyBytes (b : list byte)
  | PyList (items : list PyValue)
  | PyPair (a b : PyValue).

(** [ConditionOpcode.CREATE_COIN] is [bytes([51])],
    [ConditionOpcode.CREATE_COIN_ANNOUNCEMENT] is [bytes([60])]. *)
Definition CREATE_COIN : list byte := [x33].
Definition CREATE_COIN_ANNOUNCEMENT : list byte := [x3c].

(** [EMPTY_COIN_ANNOUNCEMENT = [ConditionOpcode.CREATE_COIN_ANNOUNCEMENT, b"$"]] *)
Definition EMPTY_COIN_ANNOUNCEMENT : PyValue :=
  PyList [PyBytes CREATE_COIN_ANNOUNCEMENT; PyBytes [x24]].

(** ** Records *)

Module Target.
Record t : Type := mk { puzzle_hash : list byte; amount : Z }.
End Target.

Module TargetCoin.
Record t : Type := mk {
  target : Target.t;
  puzzle : Program;
  puzzle_hash : list byte;
  amount : Z
}.
End TargetCoin.

Module Coin.
Record t : Type := mk {
  parent_coin_info : list byte;
  puzzle_hash : list byte;
  amount : Z
}.
End Coin.

Module CoinSpend.
Record t : Type := mk {
  coin : Coin.t;
  puzzle_reveal : Program;
  solution : Program
}.
End CoinSpend.

(** What [get_coin_record_by_name] answers for a coin the node knows. *)
Module CoinRecord.
Record t : Type := mk { spent_block_index : Z }.
End CoinRecord.

(** ** Exceptions

    The only exception the tree builder can raise is the range check of
    chia's [uint64] constructor. *)

Inductive exception : Type := ValueError.

Inductive result (A : Type) : Type :=
  | Ok (a : A)
  | Raise (e : exception).
Arguments Ok {A} a.
Arguments Raise {A} e.

Definition UINT64_MAX : Z := 2 ^ 64 - 1.

Definition uint64 (v : Z) : result Z :=
  if (0 <=? v) && (v <=? UINT64_MAX) then Ok v else Raise ValueError.

(** [Target.create_coin_condition] *)
Definition create_coin_condition (self : Target.t) : PyValue :=
  PyList [PyBytes CREATE_COIN;
          PyBytes (Target.puzzle_hash self);
          PyInt (Target.amount self);
          PyList [PyBytes (Target.puzzle_hash self)]].

(** ** [batch_the_bag] *)

Section Batching.
Context {T : Type}.

(** The body of [for index, target in enumerate(targets)]; [n] is
    [len(targets)] of the whole list. *)
Fixpoint batch_the_bag_loop (n : nat) (leaf_width : Z) (index : nat)
    (targets : list T) (current_batch : list T) (results : list (list T))
    : list (list T) :=
  match targets with
  | [] => results
  | target :: rest =>
      let current_batch := current_batch ++ [target] in
      if (Z.of_nat (length current_batch) =? leaf_width)
         || (Z.of_nat index =? Z.of_nat n - 1)
      then batch_the_bag_loop n leaf_width (S index) rest [] (results ++ [current_batch])
      else batch_the_bag_loop n leaf_width (S index) rest current_batch results
  end.

Definition batch_the_bag (targets : list T) (leaf_width : Z) : list (list T) :=
  batch_the_bag_loop (length targets) leaf_width 0 targets [] [].

(** Every batch but the last is full and the last one is not empty. *)
Fixpoint full_but_last (w : Z) (bs : list (list T)) : Prop :=
  match bs with
  | [] => True
  | b :: rest =>
      match rest with
      | [] => 1 <= Z.of_nat (length b) <= w
      | _ :: _ => Z.of_nat (length b) = w /\ full_but_last w rest
      end
  end.
End Batching.

(** ** The model proper, parametric in the library functions *)

Section Model.
(** [chia.util.hash.std_hash] (SHA-256) *)
Variable std_hash : list byte -> list byte.
(** [Program.get_tree_hash] *)
Variable get_tree_hash : Program -> list byte.
(** [clvm.casts.int_to_bytes] *)
Variable int_to_bytes : Z -> list byte.

(** [Program.to]: integers and byte strings become atoms, a list becomes a
    nil-terminated chain of pairs, a 2-tuple becomes a pair. *)
Fixpoint Program_to (v : PyValue) : Program :=
  match v with
  | PyInt z => Atom (int_to_bytes z)
  | PyBytes b => Atom b
  | PyList items =>
      (fix to_list (l : list PyValue) : Program :=
         match l with
         | [] => Atom []
         | x :: r => Cons (Program_to x) (to_list r)
         end) items
  | PyPair a b => Cons (Program_to a) (Program_to b)
  end.

(** The one rule of the CLVM evaluator that the tree puzzles exercise: a
    program whose operator is [q], the atom of the integer 1, evaluates to
    its operand whatever the solution is.  Programs with another operator
    are outside this fragment. *)
Definition run (program solution : Program) : option Program :=
  match program with
  | Cons operator quoted =>
      if decide (operator = Program_to (PyInt 1)) then Some quoted else None
  | Atom _ => None
  end.

(** [TargetCoin.__init__] *)
Definition TargetCoin_init (target : Target.t) (puzzle : Program) (amount : Z)
    : TargetCoin.t :=
  TargetCoin.mk target puzzle (get_tree_hash puzzle) amount.

(** [Coin.name]: [std_hash(parent_coin_info + puzzle_hash + int_to_bytes(amount))] *)
Definition Coin_name (c : Coin.t) : list byte :=
  std_hash (Coin.parent_coin_info c ++ Coin.puzzle_hash c
            ++ int_to_bytes (Coin.amount c)).

(** *** [secure_the_bag] *)

(** First inner loop: [list_of_conditions.append(...)],
    [total_amount += target.amount]. *)
Fixpoint collect_conditions (batch_targets : list Target.t)
    (list_of_conditions : list PyValue) (total_amount : Z)
    : list PyValue * Z :=
  match batch_targets with
  | [] => (list_of_conditions, total_amount)
  | target :: rest =>
      collect_conditions rest
        (list_of_conditions ++ [create_coin_condition target])
        (total_amount + Target.amount target)
  end.

(** Second inner loop:
    [parent_puzzle_lookup[target.puzzle_hash.hex()] = TargetCoin(...)].
    [amount] has passed [uint64] already, so the conversion repeated in
    the loop body returns it as it is. *)
Fixpoint record_parents (batch_targets : list Target.t) (puzzle : Program)
    (amount : Z) (parent_puzzle_lookup : gmap string TargetCoin.t)
    : gmap string TargetCoin.t :=
  match batch_targets with
  | [] => parent_puzzle_lookup
  | target :: rest =>
      record_parents rest puzzle amount
        (<[hex (Target.puzzle_hash target) := TargetCoin_init target puzzle amount]>
           parent_puzzle_lookup)
  end.

(** The loop [for batch_targets in batched_targets].  The dictionary is
    mutated in place, so the writes of the batches before a raising one
    stay. *)
Fixpoint process_batches (batched_targets : list (list Target.t))
    (results : list Target.t) (parent_puzzle_lookup : gmap string TargetCoin.t)
    : gmap string TargetCoin.t * result (list Target.t) :=
  match batched_targets with
  | [] => (parent_puzzle_lookup, Ok results)
  | batch_targets :: rest =>
      let '(list_of_conditions, total_amount) :=
        collect_conditions batch_targets [EMPTY_COIN_ANNOUNCEMENT] 0 in
      let puzzle := Program_to (PyPair (PyInt 1) (PyList list_of_conditions)) in
      let puzzle_hash := get_tree_hash puzzle in
      match uint64 total_amount with
      | Raise e => (parent_puzzle_lookup, Raise e)
      | Ok amount =>
          process_batches rest
            (results ++ [Target.mk puzzle_hash amount])
            (record_parents batch_targets puzzle amount parent_puzzle_lookup)
      end
  end.

(** [secure_the_bag] recurses on the list of new parents; [fuel] bounds the
    depth of that recursion and [None] means the bound was hit.  The first
    component of the answer is the dictionary object after the call. *)
Fixpoint secure_the_bag (fuel : nat) (targets : list Target.t) (leaf_width : Z)
    (parent_puzzle_lookup : gmap string TargetCoin.t)
    : option (gmap string TargetCoin.t * result (list byte)) :=
  match fuel with
  | O => None
  | S fuel =>
      match targets with
      | [only] => Some (parent_puzzle_lookup, Ok (Target.puzzle_hash only))
      | _ =>
          let batched_targets := batch_the_bag targets leaf_width in
          match process_batches batched_targets [] parent_puzzle_lookup with
          | (lookup, Raise e) => Some (lookup, Raise e)
          | (lookup, Ok results) => secure_the_bag fuel results leaf_width lookup
          end
      end
  end.

(** *** [parent_of_puzzle_hash] *)

Fixpoint parent_of_puzzle_hash (fuel : nat) (genesis_coin_name puzzle_hash : list byte)
    (parent_puzzle_lookup : gmap string TargetCoin.t)
    : option (option CoinSpend.t * list byte) :=
  match fuel with
  | O => None
  | S fuel =>
      match parent_puzzle_lookup !! hex puzzle_hash with
      | None => Some (None, genesis_coin_name)
      | Some parent =>
          match parent_of_puzzle_hash fuel genesis_coin_name
                  (TargetCoin.puzzle_hash parent) parent_puzzle_lookup with
          | None => None
          | Some (_, parent_coin_info) =>
              let coin :=
                Coin.mk parent_coin_info (TargetCoin.puzzle_hash parent)
                  (if decide (parent_coin_info = genesis_coin_name)
                   then 0 else TargetCoin.amount parent) in
              Some (Some (CoinSpend.mk coin (TargetCoin.puzzle parent)
                            (Program_to (PyList []))),
                    Coin_name coin)
          end
      end
  end.

(** *** [get_unwind] and [unwind_the_bag] *)

(** The full node is queried through [get_coin_record_by_name]; a ledger
    snapshot is a function answering it. *)
Inductive LedgerCoinState : Type := unknown | unspent | spent.

Definition coin_state (get_coin_record_by_name : list byte -> option CoinRecord.t)
    (name : list byte) : LedgerCoinState :=
  match get_coin_record_by_name name with
  | None => unknown
  | Some response =>
      if CoinRecord.spent_block_index response =? 0 then unspent else spent
  end.

(** The [while True] loop of [get_unwind]; [iterations] bounds the number
    of rounds and [fuel] the depth of each [parent_of_puzzle_hash] call. *)
Fixpoint get_unwind_loop (iterations fuel : nat)
    (get_coin_record_by_name : list byte -> option CoinRecord.t)
    (genesis_coin_id : list byte)
    (parent_puzzle_lookup : gmap string TargetCoin.t)
    (current_puzzle_hash : option (list byte))
    (required_coin_spends : list CoinSpend.t) : option (list CoinSpend.t) :=
  match iterations with
  | O => None
  | S iterations =>
      match current_puzzle_hash with
      | None => Some required_coin_spends
      | Some current =>
          match parent_of_puzzle_hash fuel genesis_coin_id current
                  parent_puzzle_lookup with
          | None => None
          | Some (None, _) => Some required_coin_spends
          | Some (Some coin_spend, _) =>
              match get_coin_record_by_name
                      (Coin_name (CoinSpend.coin coin_spend)) with
              | None =>
                  get_unwind_loop iterations fuel get_coin_record_by_name
                    genesis_coin_id parent_puzzle_lookup
                    (Some (Coin.puzzle_hash (CoinSpend.coin coin_spend)))
                    (required_coin_spends ++ [coin_spend])
              | Some response =>
                  if CoinRecord.spent_block_index response =? 0
                  then Some (required_coin_spends ++ [coin_spend])
                  else Some required_coin_spends
              end
          end
      end
  end.

Definition get_unwind (iterations fuel : nat)
    (full_node_client : list byte -> option CoinRecord.t)
    (genesis_coin_id : list byte)
    (parent_puzzle_lookup : gmap string TargetCoin.t)
    (target_puzzle_hash : list byte) : option (list CoinSpend.t) :=
  get_unwind_loop iterations fuel full_node_client genesis_coin_id
    parent_puzzle_lookup (Some target_puzzle_hash) [].

(** [return required_coin_spends[::-1]] *)
Definition unwind_the_bag (iterations fuel : nat)
    (full_node_client : list byte -> option CoinRecord.t)
    (unwind_target_puzzle_hash_bytes genesis_coin_id : list byte)
    (parent_puzzle_lookup : gmap string TargetCoin.t)
    : option (list CoinSpend.t) :=
  match get_unwind iterations fuel full_node_client genesis_coin_id
          parent_puzzle_lookup unwind_target_puzzle_hash_bytes with
  | None => None
  | Some required_coin_spends => Some (rev required_coin_spends)
  end.

(** *** The default argument

    [parent_puzzle_lookup: Dict[str, TargetCoin] = {}] is evaluated once,
    when the [def] statement runs: every call that leaves the argument out
    receives that same dictionary object.  A process is the store of its
    dictionary objects; the function gets a reference, writes through it
    and returns it. *)
Definition DEFAULT_LOOKUP : nat := 0%nat.

Definition initial_store : gmap nat (gmap string TargetCoin.t) :=
  {[ DEFAULT_LOOKUP := ∅ ]}.

Definition call_secure_the_bag (fuel : nat) (targets : list Target.t)
    (leaf_width : Z) (parent_puzzle_lookup : option nat)
    (store : gmap nat (gmap string TargetCoin.t))
    : option (gmap nat (gmap string TargetCoin.t) * result (list byte * nat)) :=
  let reference := default DEFAULT_LOOKUP parent_puzzle_lookup in
  match store !! reference with
  | None => None
  | Some dictionary =>
      match secure_the_bag fuel targets leaf_width dictionary with
      | None => None
      | Some (dictionary, outcome) =>
          Some (<[reference := dictionary]> store,
                match outcome with
                | Ok root => Ok (root, reference)
                | Raise e => Raise e
                end)
      end
  end.

End Model.

(** ** What the builder is expected to produce

    The definitions of this section are the reference the builder is
    compared with: the parent a batch stands for, and the batches of every
    level of the tree. *)

Definition sum_amounts (targets : list Target.t) : Z :=
  foldr (fun target total => Target.amount target + total) 0 targets.

Definition batch_conditions (batch : list Target.t) : list PyValue :=
  EMPTY_COIN_ANNOUNCEMENT :: map create_coin_condition batch.

Section TreeShape.
Variable get_tree_hash : Program -> list byte.
Variable int_to_bytes : Z -> list byte.

Definition batch_puzzle (batch : list Target.t) : Program :=
  Program_to int_to_bytes (PyPair (PyInt 1) (PyList (batch_conditions batch))).

Definition parent_target (batch : list Target.t) : Target.t :=
  Target.mk (get_tree_hash (batch_puzzle batch)) (sum_amounts batch).

(** The batches of all the levels [fuel] recursive calls go through. *)
Fixpoint all_batches (fuel : nat) (targets : list Target.t) (leaf_width : Z)
    : list (list Target.t) :=
  match fuel with
  | O => []
  | S fuel =>
      match targets with
      | [_] => []
      | _ =>
          let batched_targets := batch_the_bag targets leaf_width in
          batched_targets
          ++ all_batches fuel (map parent_target batched_targets) leaf_width
      end
  end.

(** [parent] is the entry written under [key] for a member of one of
    [batches]. *)
Definition built_from (batches : list (list Target.t)) (key : string)
    (parent : TargetCoin.t) : Prop :=
  exists batch,
    In batch batches
    /\ In (TargetCoin.target parent) batch
    /\ key = hex (Target.puzzle_hash (TargetCoin.target parent))
    /\ parent = TargetCoin_init get_tree_hash (TargetCoin.target parent)
                  (batch_puzzle batch) (sum_amounts batch)
    /\ 0 <= sum_amounts batch <= UINT64_MAX.
End TreeShape.

(** A table is ranked when every entry leads from a puzzle hash to one of
    higher rank: following parents, no puzzle hash is met twice. *)
Definition ranked (rank : list byte -> nat) (lookup : gmap string TargetCoin.t)
    : Prop :=
  forall h parent,
    lookup !! hex h = Some parent ->
    (rank h < rank (TargetCoin.puzzle_hash parent))%nat.

(** ** The walk of the unwind planner, as the specification words it

    Starting at the target, one ancestor at a time: an ancestor whose coin
    the ledger does not know is required and the walk goes on to its parent;
    an ancestor whose coin is unspent is required and the walk stops; at an
    ancestor whose coin is spent the walk stops and the ancestor is not
    required.  The walk also stops where the resolver finds no parent. *)

Section Walk.
Variable std_hash : list byte -> list byte.
Variable int_to_bytes : Z -> list byte.
Variable ledger : list byte -> option CoinRecord.t.
Variable genesis_coin_id : list byte.
Variable parent_puzzle_lookup : gmap string TargetCoin.t.

Definition resolves (puzzle_hash : list byte)
    (answer : option CoinSpend.t * list byte) : Prop :=
  exists fuel,
    parent_of_puzzle_hash std_hash int_to_bytes fuel genesis_coin_id puzzle_hash
      parent_puzzle_lookup = Some answer.

Definition ancestor_state (coin_spend : CoinSpend.t) : LedgerCoinState :=
  coin_state ledger (Coin_name std_hash int_to_bytes (CoinSpend.coin coin_spend)).

Inductive walk : list byte -> list CoinSpend.t -> Prop :=
  | walk_no_parent current name :
      resolves current (None, name) ->
      walk current []
  | walk_unknown current coin_spend name rest :
      resolves current (Some coin_spend, name) ->
      ancestor_state coin_spend = unknown ->
      walk (Coin.puzzle_hash (CoinSpend.coin coin_spend)) rest ->
      walk current (coin_spend :: rest)
  | walk_unspent current coin_spend name :
      resolves current (Some coin_spend, name) ->
      ancestor_state coin_spend = unspent ->
      walk current [coin_spend]
  | walk_spent current coin_spend name :
      resolves current (Some coin_spend, name) ->
      ancestor_state coin_spend = spent ->
      walk current [].
End Walk.

(** ** A small instance of the library functions

    Used to run the model on concrete inputs.  The tree hash is replaced by
    a one-byte digest of the program followed by as many zero bytes as the
    longest atom of the program has bytes, plus one: short, and longer than
    every atom the program mentions.  [std_hash] is replaced by the identity
    and [int_to_bytes] by the low byte of a non-zero integer. *)

Module Sample.
Definition byte_of (n : N) : byte := default x00 (Byte.of_N (n mod 256)).

Fixpoint digest (p : Program) : N :=
  match p with
  | Atom a => fold_left (fun acc b => (acc * 31 + Byte.to_N b + 1) mod 256)%N a 7%N
  | Cons first rest => ((digest first * 7 + digest rest * 13 + 1) mod 256)%N
  end.

Fixpoint longest (p : Program) : nat :=
  match p with
  | Atom a => length a
  | Cons first rest => Nat.max (longest first) (longest rest)
  end.

Definition tree_hash (p : Program) : list byte :=
  byte_of (digest p) :: repeat x00 (S (longest p)).

Definition std_hash (data : list byte) : list byte := data.

Definition int_to_bytes (z : Z) : list byte :=
  if z =? 0 then []
  else match Byte.of_N (Z.to_N (z mod 256)) with
       | Some b => [b]
       | None => []
       end.

Definition A : Target.t := Target.mk [x0a] 10.
Definition B : Target.t := Target.mk [x0b] 32.
Definition C : Target.t := Target.mk [x0c] 10.
Definition D : Target.t := Target.mk [x0a] 7.

Definition genesis : list byte := [xff].

(** A node that has seen nothing, and one on which every coin is unspent. *)
Definition empty_ledger (name : list byte) : option CoinRecord.t := None.
Definition unspent_ledger (name : list byte) : option CoinRecord.t :=
  Some (CoinRecord.mk 0).
Definition spent_ledger (name : list byte) : option CoinRecord.t :=
  Some (CoinRecord.mk 7).

(** The tree over [A; B; C] with width 2, and the walk from [A] on a node
    that has seen none of its coins. *)
Definition built : option (gmap string TargetCoin.t * result (list byte)) :=
  secure_the_bag tree_hash int_to_bytes 3 [A; B; C] 2 ∅.
Definition table : gmap string TargetCoin.t :=
  match built with Some (lookup, _) => lookup | None => ∅ end.
Definition root : list byte :=
  match built with Some (_, Ok r) => r | _ => [] end.
Definition walked : list CoinSpend.t :=
  default [] (get_unwind std_hash int_to_bytes 3 3 empty_ledger genesis table
                (Target.puzzle_hash A)).

(** The tree over [A; B; D]: [A] and [D] share a puzzle hash and fall into
    different batches. *)
Definition clash : option (gmap string TargetCoin.t * result (list byte)) :=
  secure_the_bag tree_hash int_to_bytes 3 [A; B; D] 2 ∅.
Definition clash_table : gmap string TargetCoin.t :=
  match clash with Some (lookup, _) => lookup | None => ∅ end.
Definition first_batch_puzzle : Program := batch_puzzle int_to_bytes [A; B].

(** A first call in a process, without the third argument. *)
Definition after_first_call
    : option (gmap nat (gmap string TargetCoin.t) * result (list byte * nat)) :=
  call_secure_the_bag tree_hash int_to_bytes 2 [A; B] 2 None
    (initial_store).
Definition store_1 : gmap nat (gmap string TargetCoin.t) :=
  match after_first_call with Some (store, _) => store | None => ∅ end.
Definition outcome_1 : result (list byte * nat) :=
  match after_first_call with Some (_, outcome) => outcome | None => Raise ValueError end.
End Sample.

(** ** Waiting for the ledger

    [unspent_coin_exists], [wait_for_unspent_coin] and [wait_for_coin_spend]
    of [unwind_the_bag.py] poll the full node, whose answers change while
    they wait.  The node is a function of the number of requests it has
    answered so far; each function receives that number and returns it
    advanced.  The pauses between two polls ([asyncio.sleep]) and the
    printed lines are not modelled. *)

Inductive unwind_exception : Type :=
  | AlreadySpent (coin_name : list byte).

Inductive completion (E A : Type) : Type :=
  | Returned (a : A)
  | Raised (e : E).
Arguments Returned {E A} a.
Arguments Raised {E A} e.

Definition unspent_coin_exists
    (full_node_client : nat -> list byte -> option CoinRecord.t)
    (requests : nat) (coin_name : list byte)
    : completion unwind_exception bool * nat :=
  match full_node_client requests coin_name with
  | None => (Returned false, S requests)
  | Some coin_record =>
      if 0 <? CoinRecord.spent_block_index coin_record
      then (Raised (AlreadySpent coin_name), S requests)
      else (Returned true, S requests)
  end.

(** [while True] of [wait_for_unspent_coin]; [fuel] bounds the rounds. *)
Fixpoint wait_for_unspent_coin (fuel : nat)
    (full_node_client : nat -> list byte -> option CoinRecord.t)
    (requests : nat) (coin_name : list byte)
    : option (completion unwind_exception unit * nat) :=
  match fuel with
  | O => None
  | S fuel =>
      match unspent_coin_exists full_node_client requests coin_name with
      | (Raised e, requests) => Some (Raised e, requests)
      | (Returned true, requests) => Some (Returned tt, requests)
      | (Returned false, requests) =>
          wait_for_unspent_coin fuel full_node_client requests coin_name
      end
  end.

(** [while True] of [wait_for_coin_spend]: an unknown coin is polled again
    at once ([continue]), an unspent one after the pause. *)
Fixpoint wait_for_coin_spend (fuel : nat)
    (full_node_client : nat -> list byte -> option CoinRecord.t)
    (requests : nat) (coin_name : list byte) : option (unit * nat) :=
  match fuel with
  | O => None
  | S fuel =>
      match full_node_client requests coin_name with
      | None => wait_for_coin_spend fuel full_node_client (S requests) coin_name
      | Some coin_record =>
          if 0 <? CoinRecord.spent_block_index coin_record
          then Some (tt, S requests)
          else wait_for_coin_spend fuel full_node_client (S requests) coin_name
      end
  end.

(** ** [read_metadata_csv]

    The function is modelled from the list of rows [csv.reader] yields
    ([bulk_data]); opening and parsing the file are the library's.  A value
    of a metadata dictionary is a list of cells (under the three list
    headers) or one cell. *)

Inductive MetaValue : Type :=
  | MetaList (items : list string)
  | MetaText (cell : string).

Inductive csv_exception : Type := IndexError | KeyError | AttributeError.

Definition default_header_row : list string :=
  ["hash"; "uris"; "meta_hash"; "meta_uris"; "license_hash"; "license_uris";
   "edition_number"; "edition_total"]%string.

Definition list_headers : list string :=
  ["uris"; "meta_uris"; "license_uris"]%string.

(** [{list_headers[i]: [] for i in range(len(list_headers))}] *)
Definition empty_meta_dict : gmap string MetaValue :=
  foldl (fun meta_dict header => <[header := MetaList []]> meta_dict) ∅ list_headers.

(** [for i, header in enumerate(header_row)], from index [i] on the rest
    of the header row. *)
Fixpoint fill_meta_dict (header_row : list string) (i : nat) (row : list string)
    (meta_dict : gmap string MetaValue) (targets : list string)
    : completion csv_exception (gmap string MetaValue * list string) :=
  match header_row with
  | [] => Returned (meta_dict, targets)
  | header :: rest =>
      if decide (header ∈ list_headers)
      then
        (* [meta_dict[header].append(row[i])] *)
        match meta_dict !! header with
        | None => Raised KeyError
        | Some (MetaText _) => Raised AttributeError
        | Some (MetaList items) =>
            match row !! i with
            | None => Raised IndexError
            | Some cell =>
                fill_meta_dict rest (S i) row
                  (<[header := MetaList (items ++ [cell])]> meta_dict) targets
            end
        end
      else if decide (header = "target"%string)
      then
        match row !! i with
        | None => Raised IndexError
        | Some cell => fill_meta_dict rest (S i) row meta_dict (targets ++ [cell])
        end
      else
        match row !! i with
        | None => Raised IndexError
        | Some cell =>
            fill_meta_dict rest (S i) row (<[header := MetaText cell]> meta_dict) targets
        end
  end.

(** [for row in rows] *)
Fixpoint read_rows (header_row : list string) (rows : list (list string))
    (metadata_list : list (gmap string MetaValue)) (targets : list string)
    : completion csv_exception (list (gmap string MetaValue) * list string) :=
  match rows with
  | [] => Returned (metadata_list, targets)
  | row :: rest =>
      match fill_meta_dict header_row 0 row empty_meta_dict targets with
      | Raised e => Raised e
      | Returned (meta_dict, targets) =>
          read_rows header_row rest (metadata_list ++ [meta_dict]) targets
      end
  end.

Definition read_metadata_csv (bulk_data : list (list string))
    (has_header has_targets : bool)
    : completion csv_exception (list (gmap string MetaValue) * list string) :=
  if has_header
  then
    match bulk_data with
    | [] => Raised IndexError
    | header_row :: rows => read_rows header_row rows [] []
    end
  else
    let header_row :=
      if has_targets then default_header_row ++ ["target"%string]
      else default_header_row in
    read_rows header_row bulk_data [] [].

(** The cells of [row] that stand under the columns named [header], in the
    order of the columns, and the value a dictionary read from [row] is
    expected to hold under [header]. *)
Definition cells_named (header_row row : list string) (header : string)
    : list string :=
  snd <$> filter (fun column => column.1 = header) (zip header_row row).

Definition expected_value (header_row row : list string) (header : string)
    : option MetaValue :=
  if decide (header ∈ list_headers)
  then Some (MetaList (cells_named header_row row header))
  else if decide (header = "target"%string) then None
  else MetaText <$> last (cells_named header_row row header).

(** A node that learns of a coin at its third answer and reports it spent
    from the fifth on, and a small file. *)
Module SampleNode.
Definition client (requests : nat) (coin_name : list byte) : option CoinRecord.t :=
  if (requests <? 2)%nat then None
  else if (requests <? 4)%nat then Some (CoinRecord.mk 0)
  else Some (CoinRecord.mk 9).

Definition file : list (list string) :=
  [["hash"; "uris"; "uris"; "name"; "target"];
   ["ab"; "u1"; "u2"; "first"; "t1"];
   ["cd"; "u3"; "u4"; "second"; "t2"; "ignored"]]%string.

Definition short_file : list (list string) :=
  [["hash"; "uris"]; ["ab"]]%string.
End SampleNode.

(** Every list header is bound to a list. *)
Definition list_headers_bound (meta_dict : gmap string MetaValue) : Prop :=
  forall header,
    header ∈ list_headers ->
    exists items, meta_dict !! header = Some (MetaList items).

(** The header row and the data rows [read_metadata_csv] works with. *)
Definition header_and_rows (bulk_data : list (list string))
    (has_header has_targets : bool) : option (list string * list (list string)) :=
  if has_header
  then match bulk_data with
       | [] => None
       | header_row :: rows => Some (header_row, rows)
       end
  else Some (if has_targets then default_header_row ++ ["target"%string]
             else default_header_row, bulk_data).

(** What one pass over the header row makes of the value under [header]. *)
Definition merged_value (before : option MetaValue) (cells : list string)
    (header : string) : option MetaValue :=
  if decide (header ∈ list_headers)
  then match before with
       | Some (MetaList items) => Some (MetaList (items ++ cells))
       | other => other
       end
  else if decide (header = "target"%string) then before
  else match last cells with
       | Some cell => Some (MetaText cell)
       | None => before
       end.

(** The dictionary after the second inner loop of [secure_the_bag] has run
    for each batch of [batches] in turn. *)
Section Recorded.
Variable get_tree_hash : Program -> list byte.
Variable int_to_bytes : Z -> list byte.

Definition recorded (batches : list (list Target.t))
    (lookup : gmap string TargetCoin.t) : gmap string TargetCoin.t :=
  foldl (fun lookup batch =>
           record_parents get_tree_hash batch (batch_puzzle int_to_bytes batch)
             (sum_amounts batch) lookup)
    lookup batches.
End Recorded.

(** More sample data: a target whose amount alone fills [uint64]. *)
Module SampleMore.
Definition E : Target.t := Target.mk [x0e] UINT64_MAX.
End SampleMore.

(** ** An instance with 32-byte hashes

    As [Sample], with every puzzle hash, tree hash, coin name and the
    genesis reference 32 bytes long, as [bytes32] has them.  The rank of a
    puzzle hash is its height in the tree over [A; B; C] with width 2. *)

Module Sample32.
Definition tree_hash (p : Program) : list byte :=
  Sample.byte_of (Sample.digest p) :: repeat x00 31.

Definition std_hash (data : list byte) : list byte :=
  Sample.byte_of (Sample.digest (Atom data)) :: repeat x01 31.

Definition A : Target.t := Target.mk (x0a :: repeat x00 31) 10.
Definition B : Target.t := Target.mk (x0b :: repeat x00 31) 32.
Definition C : Target.t := Target.mk (x0c :: repeat x00 31) 10.

Definition genesis : list byte := repeat xff 32.

Definition rank (h : list byte) : nat :=
  if decide (h ∈ map Target.puzzle_hash [A; B; C]) then 0%nat
  else if decide (h ∈ map (fun batch =>
                             tree_hash (batch_puzzle Sample.int_to_bytes batch))
                        [[A; B]; [C]])
       then 1%nat
       else 2%nat.

Definition built : option (gmap string TargetCoin.t * result (list byte)) :=
  secure_the_bag tree_hash Sample.int_to_bytes 3 [A; B; C] 2 ∅.
Definition table : gmap string TargetCoin.t :=
  match built with Some (lookup, _) => lookup | None => ∅ end.
Definition root : list byte :=
  match built with Some (_, Ok r) => r | _ => [] end.

Definition unspent_ledger (name : list byte) : option CoinRecord.t :=
  Some (CoinRecord.mk 0).
End Sample32.

(** A second call in the process of [Sample.after_first_call], on a list
    that shares the target [A] with the first. *)
Module SampleCalls.
Definition after_second_call
    : option (gmap nat (gmap string TargetCoin.t) * result (list byte * nat)) :=
  call_secure_the_bag Sample.tree_hash Sample.int_to_bytes 2
    [Sample.A; Sample.C] 2 None Sample.store_1.
Definition store_2 : gmap nat (gmap string TargetCoin.t) :=
  match after_second_call with Some (store, _) => store | None => ∅ end.
Definition root_2 : list byte :=
  match after_second_call with Some (_, Ok (root, _)) => root | _ => [] end.
Definition second_call_puzzle : Program :=
  batch_puzzle Sample.int_to_bytes [Sample.A; Sample.C].
End SampleCalls.

(** ** Properties of [batch_the_bag] *)

Section BatchingFacts.
Context {T : Type}.

Lemma batch_the_bag_loop_spec (n : nat) (w : Z) :
  1 <= w ->
  forall (targets : list T) (index : nat) (current_batch : list T)
         (results : list (list T)),
    n = (index + length targets)%nat ->
    Z.of_nat (length current_batch) < w ->
    (targets = [] -> current_batch = []) ->
    exists chunks,
      batch_the_bag_loop n w index targets current_batch results = results ++ chunks
      /\ concat chunks = current_batch ++ targets
      /\ full_but_last w chunks.
Proof.
  intros Hw targets.
  induction targets as [|target rest IH]; intros index cur results Hn Hcur Hnil.
  - exists []. simpl. rewrite Hnil by reflexivity.
    rewrite app_nil_r. auto.
  - simpl.
    destruct ((Z.of_nat (length (cur ++ [target])) =? w)
              || (Z.of_nat index =? Z.of_nat n - 1)) eqn:Hcond.
    + destruct (IH (S index) [] (results ++ [cur ++ [target]]))
        as (chunks & Heq & Hcat & Hfull).
      * simpl in Hn. lia.
      * simpl. lia.
      * reflexivity.
      * exists ((cur ++ [target]) :: chunks). rewrite Heq.
        rewrite <- app_assoc. split; [reflexivity|]. split.
        { simpl. rewrite Hcat. simpl. rewrite <- app_assoc. reflexivity. }
        simpl. destruct chunks as [|c chunks'].
        { rewrite length_app in *. simpl in *. lia. }
        split; [|exact Hfull].
        apply orb_true_iff in Hcond. destruct Hcond as [Hfullb|Hlast].
        { apply Z.eqb_eq in Hfullb. exact Hfullb. }
        apply Z.eqb_eq in Hlast. simpl in Hn.
        assert (rest = []) as -> by (destruct rest; [reflexivity|simpl in Hn; lia]).
        simpl in Hcat. apply app_eq_nil in Hcat. destruct Hcat as [-> _].
        simpl in Hfull. destruct chunks'; simpl in Hfull; lia.
    + apply orb_false_iff in Hcond. destruct Hcond as [Hnfull Hnlast].
      apply Z.eqb_neq in Hnfull. apply Z.eqb_neq in Hnlast.
      destruct (IH (S index) (cur ++ [target]) results)
        as (chunks & Heq & Hcat & Hfull).
      * simpl in Hn. lia.
      * rewrite length_app in *. simpl in *. lia.
      * intros ->. simpl in Hn. lia.
      * exists chunks. rewrite Heq. split; [reflexivity|]. split; [|exact Hfull].
        rewrite Hcat. rewrite <- app_assoc. reflexivity.
Qed.

Lemma batch_the_bag_spec (targets : list T) (w : Z) :
  1 <= w ->
  concat (batch_the_bag targets w) = targets
  /\ full_but_last w (batch_the_bag targets w).
Proof.
  intros Hw. unfold batch_the_bag.
  destruct (batch_the_bag_loop_spec (length targets) w Hw targets 0 [] [])
    as (chunks & Heq & Hcat & Hfull); simpl; auto; try lia.
  rewrite Heq. simpl. auto.
Qed.

Lemma full_but_last_lookup (w : Z) (bs : list (list T)) :
  1 <= w -> full_but_last w bs ->
  forall (i : nat) (b : list T),
    bs !! i = Some b ->
    1 <= Z.of_nat (length b) <= w
    /\ ((S i < length bs)%nat -> Z.of_nat (length b) = w).
Proof.
  intros Hw. induction bs as [|b0 rest IH]; intros Hfull i b Hi; [discriminate|].
  destruct i as [|i]; simpl in Hi.
  - inversion Hi; subst b0. simpl in Hfull. destruct rest.
    + split; [lia|]. simpl. lia.
    + destruct Hfull as [Hb _]. split; [lia|auto].
  - simpl in Hfull. destruct rest as [|b1 rest']; [discriminate|].
    destruct Hfull as [_ Hrest].
    destruct (IH Hrest i b Hi) as [H1 H2]. split; [exact H1|].
    intros Hlt. apply H2. simpl in *. lia.
Qed.

Lemma full_but_last_nonempty (w : Z) (bs : list (list T)) :
  1 <= w -> full_but_last w bs -> (length bs <= length (concat bs))%nat.
Proof.
  intros Hw. induction bs as [|b rest IH]; intros Hfull; simpl; [lia|].
  rewrite length_app. simpl in Hfull. destruct rest as [|b1 rest'].
  - simpl. lia.
  - destruct Hfull as [Hb Hrest]. specialize (IH Hrest).
    simpl in *. lia.
Qed.

Lemma full_but_last_shrinks (w : Z) (bs : list (list T)) :
  2 <= w -> full_but_last w bs ->
  (2 <= length (concat bs))%nat -> (length bs < length (concat bs))%nat.
Proof.
  intros Hw Hfull Hlen. destruct bs as [|b rest]; [simpl in Hlen; lia|].
  simpl in *. rewrite length_app in *. destruct rest as [|b1 rest'].
  - simpl in *. lia.
  - destruct Hfull as [Hb Hrest].
    assert (1 <= w) as Hw1 by lia.
    pose proof (full_but_last_nonempty w _ Hw1 Hrest) as Hne. simpl in *. lia.
Qed.

(** C9: for a non-empty list and a width of at least 1 the batches are
    consecutive pieces of the input: concatenated in order they give the
    input back, each of them holds between 1 and [leaf_width] elements, and
    each one that is not the last holds exactly [leaf_width]. *)
Theorem batch_the_bag_partition (targets : list T) (leaf_width : Z) :
  targets <> [] -> 1 <= leaf_width ->
  concat (batch_the_bag targets leaf_width) = targets
  /\ batch_the_bag targets leaf_width <> []
  /\ forall (i : nat) (batch : list T),
       batch_the_bag targets leaf_width !! i = Some batch ->
       1 <= Z.of_nat (length batch) <= leaf_width
       /\ ((S i < length (batch_the_bag targets leaf_width))%nat ->
           Z.of_nat (length batch) = leaf_width).
Proof.
  intros Hne Hw. destruct (batch_the_bag_spec targets leaf_width Hw) as [Hcat Hfull].
  split; [exact Hcat|]. split.
  - intros Hnil. rewrite Hnil in Hcat. simpl in Hcat. congruence.
  - apply full_but_last_lookup; assumption.
Qed.
End BatchingFacts.

(** ** [hex] is injective *)

Lemma unhex_hex_byte (b : byte) :
  unhex_byte (hex_digit (Byte.to_N b / 16)) (hex_digit (Byte.to_N b mod 16)) = Some b.
Proof. destruct b; reflexivity. Qed.

Lemma hex_inj (a b : list byte) : hex a = hex b -> a = b.
Proof.
  revert b. induction a as [|x a IH]; intros [|y b] H; simpl in H;
    try discriminate; [reflexivity|].
  injection H as H1 H2 H3.
  f_equal; [|apply IH; exact H3].
  pose proof (unhex_hex_byte x) as Hx. pose proof (unhex_hex_byte y) as Hy.
  rewrite H1, H2 in Hx. congruence.
Qed.

Lemma Program_to_list_cons (int_to_bytes : Z -> list byte) (x : PyValue)
    (items : list PyValue) :
  Program_to int_to_bytes (PyList (x :: items))
  = Cons (Program_to int_to_bytes x) (Program_to int_to_bytes (PyList items)).
Proof. reflexivity. Qed.

(** ** The tree builder *)

Section BuilderFacts.
Variable get_tree_hash : Program -> list byte.
Variable int_to_bytes : Z -> list byte.

Local Abbreviation Program_to := (Program_to int_to_bytes).
Local Abbreviation run := (run int_to_bytes).
Local Abbreviation TargetCoin_init := (TargetCoin_init get_tree_hash).
Local Abbreviation record_parents := (record_parents get_tree_hash).
Local Abbreviation process_batches := (process_batches get_tree_hash int_to_bytes).
Local Abbreviation secure_the_bag := (secure_the_bag get_tree_hash int_to_bytes).
Local Abbreviation batch_puzzle := (batch_puzzle int_to_bytes).
Local Abbreviation parent_target := (parent_target get_tree_hash int_to_bytes).
Local Abbreviation all_batches := (all_batches get_tree_hash int_to_bytes).
Local Abbreviation built_from := (built_from get_tree_hash int_to_bytes).
Local Abbreviation recorded := (recorded get_tree_hash int_to_bytes).

Lemma collect_conditions_spec (batch : list Target.t) :
  forall (conditions : list PyValue) (total : Z),
    collect_conditions batch conditions total
    = (conditions ++ map create_coin_condition batch, total + sum_amounts batch).
Proof.
  induction batch as [|t batch IH]; intros conditions total; simpl.
  - rewrite app_nil_r, Z.add_0_r. reflexivity.
  - rewrite IH, <- app_assoc. simpl. f_equal. lia.
Qed.

Lemma uint64_Ok (v a : Z) : uint64 v = Ok a -> a = v /\ 0 <= v <= UINT64_MAX.
Proof.
  unfold uint64. destruct (0 <=? v) eqn:H0; destruct (v <=? UINT64_MAX) eqn:H1;
    simpl; intros H; inversion H; subst. lia.
Qed.

Lemma uint64_in_range (v : Z) : 0 <= v <= UINT64_MAX -> uint64 v = Ok v.
Proof.
  intros [H0 H1]. unfold uint64.
  apply Z.leb_le in H0. apply Z.leb_le in H1. rewrite H0, H1. reflexivity.
Qed.

(** One round of the outer loop, with the first inner loop summarised. *)
Lemma process_batches_cons (batch : list Target.t) (rest : list (list Target.t))
    (results : list Target.t) (lookup : gmap string TargetCoin.t) :
  process_batches (batch :: rest) results lookup
  = match uint64 (sum_amounts batch) with
    | Raise e => (lookup, Raise e)
    | Ok amount =>
        process_batches rest
          (results ++ [Target.mk (get_tree_hash (batch_puzzle batch)) amount])
          (record_parents batch (batch_puzzle batch) amount lookup)
    end.
Proof.
  simpl. rewrite collect_conditions_spec. simpl. reflexivity.
Qed.

Lemma process_batches_nil (results : list Target.t)
    (lookup : gmap string TargetCoin.t) :
  process_batches [] results lookup = (lookup, Ok results).
Proof. reflexivity. Qed.

Lemma run_batch_puzzle (batch : list Target.t) (solution : Program) :
  run (batch_puzzle batch) solution = Some (Program_to (PyList (batch_conditions batch))).
Proof.
  unfold batch_puzzle, run. simpl.
  destruct (decide (Atom (int_to_bytes 1) = Atom (int_to_bytes 1))); [reflexivity|congruence].
Qed.

(** A key is either left alone by the second inner loop or bound to the new
    parent. *)
Lemma record_parents_frame (batch : list Target.t) (puzzle : Program) (amount : Z) :
  forall (lookup : gmap string TargetCoin.t) (key : string),
    (record_parents batch puzzle amount lookup !! key = lookup !! key
     /\ forall t, In t batch -> key <> hex (Target.puzzle_hash t))
    \/ exists t, In t batch /\ key = hex (Target.puzzle_hash t)
         /\ record_parents batch puzzle amount lookup !! key
            = Some (TargetCoin_init t puzzle amount).
Proof.
  induction batch as [|t batch IH]; intros lookup key; simpl.
  - left. split; [reflexivity|]. intros t [].
  - destruct (IH (<[hex (Target.puzzle_hash t) := TargetCoin_init t puzzle amount]> lookup) key)
      as [[Hsame Hnot]|(t' & Hin & Hkey & Hlook)].
    + destruct (decide (key = hex (Target.puzzle_hash t))) as [->|Hne].
      * right. exists t. split; [left; reflexivity|]. split; [reflexivity|].
        rewrite Hsame. apply lookup_insert_eq.
      * left. split.
        { rewrite Hsame. apply lookup_insert_ne. congruence. }
        intros t0 [<-|Hin]; [exact Hne|apply Hnot; exact Hin].
    + right. exists t'. split; [right; exact Hin|]. auto.
Qed.

Lemma record_parents_member (batch : list Target.t) (puzzle : Program) (amount : Z)
    (lookup : gmap string TargetCoin.t) (t : Target.t) :
  In t batch ->
  exists t', In t' batch
    /\ hex (Target.puzzle_hash t') = hex (Target.puzzle_hash t)
    /\ record_parents batch puzzle amount lookup !! hex (Target.puzzle_hash t)
       = Some (TargetCoin_init t' puzzle amount).
Proof.
  intros Hin.
  destruct (record_parents_frame batch puzzle amount lookup (hex (Target.puzzle_hash t)))
    as [[_ Hnot]|(t' & Hin' & Hkey & Hlook)].
  - exfalso. exact (Hnot t Hin eq_refl).
  - exists t'. auto.
Qed.

Lemma built_from_incl (batches batches' : list (list Target.t)) (key : string)
    (parent : TargetCoin.t) :
  (forall batch, In batch batches -> In batch batches') ->
  built_from batches key parent -> built_from batches' key parent.
Proof.
  intros Hincl (batch & Hin & H). exists batch. split; [apply Hincl; exact Hin|exact H].
Qed.

Lemma process_batches_frame (batches : list (list Target.t)) :
  forall (results : list Target.t) (lookup lookup' : gmap string TargetCoin.t)
         (outcome : result (list Target.t)),
    process_batches batches results lookup = (lookup', outcome) ->
    forall key,
      lookup' !! key = lookup !! key
      \/ exists parent, lookup' !! key = Some parent /\ built_from batches key parent.
Proof.
  induction batches as [|batch rest IH]; intros results lookup lookup' outcome Hrun key.
  - simpl in Hrun. inversion Hrun; subst. left. reflexivity.
  - rewrite process_batches_cons in Hrun.
    destruct (uint64 (sum_amounts batch)) as [amount|e] eqn:Hamount.
    + apply uint64_Ok in Hamount. destruct Hamount as [-> Hrange].
      destruct (IH _ _ _ _ Hrun key) as [Hsame|(parent & Hlook & Hbuilt)].
      * destruct (record_parents_frame batch (batch_puzzle batch) (sum_amounts batch) lookup key)
          as [[Hsame' _]|(t & Hin & Hkey & Hlook)].
        { left. congruence. }
        right. exists (TargetCoin_init t (batch_puzzle batch) (sum_amounts batch)).
        split; [congruence|].
        exists batch. simpl. auto 10.
      * right. exists parent. split; [exact Hlook|].
        eapply built_from_incl; [|exact Hbuilt]. intros b Hb. right. exact Hb.
    + inversion Hrun; subst. left. reflexivity.
Qed.

Lemma process_batches_written (batches : list (list Target.t)) :
  forall (results results' : list Target.t) (lookup lookup' : gmap string TargetCoin.t),
    process_batches batches results lookup = (lookup', Ok results') ->
    results' = results ++ map parent_target batches
    /\ (forall batch, In batch batches -> 0 <= sum_amounts batch <= UINT64_MAX)
    /\ forall batch t, In batch batches -> In t batch ->
         exists parent,
           lookup' !! hex (Target.puzzle_hash t) = Some parent
           /\ built_from batches (hex (Target.puzzle_hash t)) parent.
Proof.
  induction batches as [|batch rest IH]; intros results results' lookup lookup' Hrun.
  - simpl in Hrun. inversion Hrun; subst. rewrite app_nil_r.
    split; [reflexivity|]. split; [intros ? []|intros ? ? []].
  - rewrite process_batches_cons in Hrun.
    destruct (uint64 (sum_amounts batch)) as [amount|e] eqn:Hamount;
      [|inversion Hrun].
    apply uint64_Ok in Hamount. destruct Hamount as [-> Hrange].
    destruct (IH _ _ _ _ Hrun) as (Hres & Hranges & Hwritten).
    split; [|split].
    + rewrite Hres, <- app_assoc. reflexivity.
    + intros b [<-|Hb]; [exact Hrange|apply Hranges; exact Hb].
    + intros b t [<-|Hb] Hin.
      * destruct (record_parents_member batch (batch_puzzle batch) (sum_amounts batch)
                    lookup t Hin) as (t' & Hin' & Hkey & Hlook).
        destruct (process_batches_frame _ _ _ _ _ Hrun (hex (Target.puzzle_hash t)))
          as [Hsame|(parent & Hlook' & Hbuilt)].
        { exists (TargetCoin_init t' (batch_puzzle batch) (sum_amounts batch)).
          split; [congruence|]. exists batch. simpl. auto 10. }
        exists parent. split; [exact Hlook'|].
        eapply built_from_incl; [|exact Hbuilt]. intros b Hb. right. exact Hb.
      * destruct (Hwritten b t Hb Hin) as (parent & Hlook & Hbuilt).
        exists parent. split; [exact Hlook|].
        eapply built_from_incl; [|exact Hbuilt]. intros b' Hb'. right. exact Hb'.
Qed.

(** *** The recursion of [secure_the_bag] *)

Lemma secure_the_bag_step (fuel : nat) (targets : list Target.t) (w : Z)
    (lookup : gmap string TargetCoin.t) :
  length targets <> 1%nat ->
  secure_the_bag (S fuel) targets w lookup
  = match process_batches (batch_the_bag targets w) [] lookup with
    | (lookup', Raise e) => Some (lookup', Raise e)
    | (lookup', Ok results) => secure_the_bag fuel results w lookup'
    end.
Proof.
  intros Hlen. destruct targets as [|t [|t' rest]]; try reflexivity.
  simpl in Hlen. congruence.
Qed.

Lemma all_batches_step (fuel : nat) (targets : list Target.t) (w : Z) :
  length targets <> 1%nat ->
  all_batches (S fuel) targets w
  = batch_the_bag targets w
    ++ all_batches fuel (map parent_target (batch_the_bag targets w)) w.
Proof.
  intros Hlen. destruct targets as [|t [|t' rest]]; try reflexivity.
  simpl in Hlen. congruence.
Qed.

Lemma secure_the_bag_frame (fuel : nat) :
  forall (targets : list Target.t) (w : Z) (lookup lookup' : gmap string TargetCoin.t)
         (outcome : result (list byte)),
    secure_the_bag fuel targets w lookup = Some (lookup', outcome) ->
    forall key,
      lookup' !! key = lookup !! key
      \/ exists parent,
           lookup' !! key = Some parent
           /\ built_from (all_batches fuel targets w) key parent.
Proof.
  induction fuel as [|fuel IH]; intros targets w lookup lookup' outcome Hrun key;
    [discriminate|].
  destruct (decide (length targets = 1%nat)) as [Hone|Hmany].
  - destruct targets as [|t [|? ?]]; try discriminate.
    simpl in Hrun. inversion Hrun; subst. left. reflexivity.
  - rewrite secure_the_bag_step in Hrun by exact Hmany.
    rewrite all_batches_step by exact Hmany.
    destruct (process_batches (batch_the_bag targets w) [] lookup)
      as [lookup1 [results|e]] eqn:Hbatches.
    + destruct (process_batches_written _ _ _ _ _ Hbatches) as (Hres & _ & _).
      simpl in Hres. subst results.
      destruct (IH _ _ _ _ _ Hrun key) as [Hsame|(parent & Hlook & Hbuilt)].
      * destruct (process_batches_frame _ _ _ _ _ Hbatches key)
          as [Hsame'|(parent & Hlook & Hbuilt)].
        { left. congruence. }
        right. exists parent. split; [congruence|].
        eapply built_from_incl; [|exact Hbuilt].
        intros b Hb. apply in_or_app. left. exact Hb.
      * right. exists parent. split; [exact Hlook|].
        eapply built_from_incl; [|exact Hbuilt].
        intros b Hb. apply in_or_app. right. exact Hb.
    + inversion Hrun; subst.
      destruct (process_batches_frame _ _ _ _ _ Hbatches key)
        as [Hsame'|(parent & Hlook & Hbuilt)]; [left; exact Hsame'|].
      right. exists parent. split; [exact Hlook|].
      eapply built_from_incl; [|exact Hbuilt].
      intros b Hb. apply in_or_app. left. exact Hb.
Qed.

Lemma secure_the_bag_written (fuel : nat) :
  forall (targets : list Target.t) (w : Z) (lookup lookup' : gmap string TargetCoin.t)
         (root : list byte),
    secure_the_bag fuel targets w lookup = Some (lookup', Ok root) ->
    forall batch t,
      In batch (all_batches fuel targets w) -> In t batch ->
      exists parent,
        lookup' !! hex (Target.puzzle_hash t) = Some parent
        /\ built_from (all_batches fuel targets w) (hex (Target.puzzle_hash t)) parent.
Proof.
  induction fuel as [|fuel IH]; intros targets w lookup lookup' root Hrun batch t Hb Ht;
    [discriminate|].
  destruct (decide (length targets = 1%nat)) as [Hone|Hmany].
  - destruct targets as [|t0 [|? ?]]; try discriminate. simpl in Hb. destruct Hb.
  - rewrite secure_the_bag_step in Hrun by exact Hmany.
    rewrite all_batches_step in * by exact Hmany.
    destruct (process_batches (batch_the_bag targets w) [] lookup)
      as [lookup1 [results|e]] eqn:Hbatches; [|discriminate].
    destruct (process_batches_written _ _ _ _ _ Hbatches) as (Hres & _ & Hwritten).
    simpl in Hres. subst results.
    apply in_app_or in Hb. destruct Hb as [Hb|Hb].
    + destruct (Hwritten batch t Hb Ht) as (parent & Hlook & Hbuilt).
      destruct (secure_the_bag_frame _ _ _ _ _ _ Hrun (hex (Target.puzzle_hash t)))
        as [Hsame|(parent' & Hlook' & Hbuilt')].
      * exists parent. split; [congruence|].
        eapply built_from_incl; [|exact Hbuilt].
        intros b Hin. apply in_or_app. left. exact Hin.
      * exists parent'. split; [exact Hlook'|].
        eapply built_from_incl; [|exact Hbuilt'].
        intros b Hin. apply in_or_app. right. exact Hin.
    + destruct (IH _ _ _ _ _ Hrun batch t Hb Ht) as (parent & Hlook & Hbuilt).
      exists parent. split; [exact Hlook|].
      eapply built_from_incl; [|exact Hbuilt].
      intros b Hin. apply in_or_app. right. exact Hin.
Qed.

(** The outcome of the outer loop does not look at the dictionary. *)
Lemma process_batches_outcome (batches : list (list Target.t)) :
  forall (results : list Target.t) (lookup1 lookup2 : gmap string TargetCoin.t),
    snd (process_batches batches results lookup1)
    = snd (process_batches batches results lookup2).
Proof.
  induction batches as [|batch rest IH]; intros results lookup1 lookup2;
    [reflexivity|].
  rewrite !process_batches_cons.
  destruct (uint64 (sum_amounts batch)); [apply IH|reflexivity].
Qed.

(** C7: on a list of exactly one target the function returns that target's
    puzzle hash as the root and hands the lookup table back as it received
    it: no batch is formed, no entry is written, nothing is raised, whatever
    the width. *)
Theorem secure_the_bag_single_target (fuel : nat) (t : Target.t) (leaf_width : Z)
    (parent_puzzle_lookup : gmap string TargetCoin.t) :
  secure_the_bag (S fuel) [t] leaf_width parent_puzzle_lookup
  = Some (parent_puzzle_lookup, Ok (Target.puzzle_hash t))
  /\ all_batches (S fuel) [t] leaf_width = [].
Proof. split; reflexivity. Qed.

(** C8: the root (or the exception) two invocations on the same target
    list and width end with is the same, whatever dictionary each of them
    was handed and however deep each was allowed to recurse. *)
Theorem secure_the_bag_root_deterministic (fuel1 fuel2 : nat)
    (targets : list Target.t) (leaf_width : Z)
    (lookup1 lookup2 lookup1' lookup2' : gmap string TargetCoin.t)
    (outcome1 outcome2 : result (list byte)) :
  secure_the_bag fuel1 targets leaf_width lookup1 = Some (lookup1', outcome1) ->
  secure_the_bag fuel2 targets leaf_width lookup2 = Some (lookup2', outcome2) ->
  outcome1 = outcome2.
Proof.
  revert fuel2 targets lookup1 lookup2.
  induction fuel1 as [|fuel1 IH]; intros fuel2 targets lookup1 lookup2 H1 H2;
    [discriminate|].
  destruct fuel2 as [|fuel2]; [discriminate|].
  destruct (decide (length targets = 1%nat)) as [Hone|Hmany].
  - destruct targets as [|t [|? ?]]; try discriminate.
    simpl in H1, H2. congruence.
  - rewrite secure_the_bag_step in H1, H2 by exact Hmany.
    pose proof (process_batches_outcome (batch_the_bag targets leaf_width) []
                  lookup1 lookup2) as Hsame.
    destruct (process_batches (batch_the_bag targets leaf_width) [] lookup1)
      as [l1 [r1|e1]];
    destruct (process_batches (batch_the_bag targets leaf_width) [] lookup2)
      as [l2 [r2|e2]]; simpl in Hsame; try discriminate.
    + inversion Hsame; subst. eapply IH; eassumption.
    + congruence.
Qed.

(** *** Amounts *)

Lemma sum_amounts_app (xs ys : list Target.t) :
  sum_amounts (xs ++ ys) = sum_amounts xs + sum_amounts ys.
Proof.
  induction xs as [|x xs IH]; simpl; [reflexivity|].
  unfold sum_amounts in *. simpl. rewrite IH. lia.
Qed.

Lemma sum_amounts_nonneg (xs : list Target.t) :
  Forall (fun t => 0 <= Target.amount t) xs -> 0 <= sum_amounts xs.
Proof.
  induction 1 as [|x xs Hx _ IH]; unfold sum_amounts in *; simpl; lia.
Qed.

Lemma sum_amounts_parents (batches : list (list Target.t)) :
  sum_amounts (map parent_target batches) = sum_amounts (concat batches).
Proof.
  induction batches as [|b batches IH]; [reflexivity|].
  simpl. rewrite sum_amounts_app, <- IH. reflexivity.
Qed.

Lemma sum_amounts_batch (batches : list (list Target.t)) (batch : list Target.t) :
  Forall (fun t => 0 <= Target.amount t) (concat batches) ->
  In batch batches ->
  0 <= sum_amounts batch <= sum_amounts (concat batches).
Proof.
  induction batches as [|b batches IH]; intros Hpos Hin; [destruct Hin|].
  simpl in Hpos. apply Forall_app in Hpos. destruct Hpos as [Hb Hrest].
  pose proof (sum_amounts_nonneg _ Hb). pose proof (sum_amounts_nonneg _ Hrest).
  simpl. rewrite sum_amounts_app. destruct Hin as [<-|Hin]; [lia|].
  specialize (IH Hrest Hin). lia.
Qed.

Lemma process_batches_in_range (batches : list (list Target.t)) :
  forall (results : list Target.t) (lookup : gmap string TargetCoin.t),
    (forall batch, In batch batches -> 0 <= sum_amounts batch <= UINT64_MAX) ->
    exists lookup',
      process_batches batches results lookup
      = (lookup', Ok (results ++ map parent_target batches)).
Proof.
  induction batches as [|b batches IH]; intros results lookup Hrange.
  - exists lookup. simpl. rewrite app_nil_r. reflexivity.
  - rewrite process_batches_cons.
    rewrite uint64_in_range by (apply Hrange; left; reflexivity).
    destruct (IH (results ++ [Target.mk (get_tree_hash (batch_puzzle b)) (sum_amounts b)])
                (record_parents b (batch_puzzle b) (sum_amounts b) lookup))
      as [lookup' Hrun].
    + intros b' Hb'. apply Hrange. right. exact Hb'.
    + exists lookup'. rewrite Hrun. simpl. rewrite <- app_assoc. reflexivity.
Qed.

(** *** Termination *)

Lemma secure_the_bag_terminates (w : Z) (Hw : 2 <= w) (n : nat) :
  forall (targets : list Target.t) (lookup : gmap string TargetCoin.t),
    (1 <= length targets <= n)%nat ->
    exists lookup' outcome,
      secure_the_bag n targets w lookup = Some (lookup', outcome)
      /\ (Forall (fun t => 0 <= Target.amount t) targets ->
          sum_amounts targets <= UINT64_MAX ->
          exists root, outcome = Ok root).
Proof.
  induction n as [|n IH]; intros targets lookup Hlen; [lia|].
  destruct (decide (length targets = 1%nat)) as [Hone|Hmany].
  - destruct targets as [|t [|? ?]]; try discriminate.
    exists lookup, (Ok (Target.puzzle_hash t)). split; [reflexivity|]. eauto.
  - rewrite secure_the_bag_step by exact Hmany.
    assert (1 <= w) as Hw1 by lia.
    destruct (batch_the_bag_spec targets w Hw1) as [Hcat Hfull].
    destruct (process_batches (batch_the_bag targets w) [] lookup)
      as [lookup1 [results|e]] eqn:Hbatches.
    + destruct (process_batches_written _ _ _ _ _ Hbatches) as (Hres & Hranges & _).
      simpl in Hres. subst results.
      destruct (IH (map parent_target (batch_the_bag targets w)) lookup1)
        as (lookup' & outcome & Hrun & Hok).
      * rewrite length_map.
        pose proof (full_but_last_shrinks w _ Hw Hfull) as Hshrink.
        rewrite Hcat in Hshrink.
        assert (batch_the_bag targets w <> []) as Hne.
        { intros Hnil. rewrite Hnil in Hcat. simpl in Hcat. subst targets.
          simpl in Hlen. lia. }
        destruct (batch_the_bag targets w); [congruence|]. simpl in *. lia.
      * exists lookup', outcome. split; [exact Hrun|].
        intros Hpos Hsum. apply Hok.
        { apply List.Forall_forall. intros t Ht. apply in_map_iff in Ht.
          destruct Ht as (b & <- & Hb). simpl. apply Hranges. exact Hb. }
        rewrite sum_amounts_parents, Hcat. exact Hsum.
    + exists lookup1, (Raise e). split; [reflexivity|].
      intros Hpos Hsum. exfalso.
      destruct (process_batches_in_range (batch_the_bag targets w) [] lookup)
        as [lookup2 Hrun].
      * intros b Hb. rewrite <- Hcat in Hpos, Hsum.
        pose proof (sum_amounts_batch _ b Hpos Hb). lia.
      * rewrite Hrun in Hbatches. discriminate.
Qed.

(** With a width of 1 every batch holds one target, so a level of two
    targets is followed by a level of two parents, for ever. *)
Lemma secure_the_bag_width_1_diverges (fuel : nat) :
  forall (a b : Target.t) (lookup : gmap string TargetCoin.t),
    0 <= Target.amount a <= UINT64_MAX ->
    0 <= Target.amount b <= UINT64_MAX ->
    secure_the_bag fuel [a; b] 1 lookup = None.
Proof.
  induction fuel as [|fuel IH]; intros a b lookup Ha Hb; [reflexivity|].
  rewrite secure_the_bag_step by (simpl; lia).
  change (batch_the_bag [a; b] 1) with [[a]; [b]].
  rewrite process_batches_cons.
  change (sum_amounts [a]) with (Target.amount a + 0).
  rewrite Z.add_0_r, (uint64_in_range _ Ha).
  rewrite process_batches_cons.
  change (sum_amounts [b]) with (Target.amount b + 0).
  rewrite Z.add_0_r, (uint64_in_range _ Hb).
  rewrite process_batches_nil. simpl (_ ++ _).
  apply IH; simpl; assumption.
Qed.

(** The recursion on the empty list builds no batch and calls itself on the
    empty list again. *)
Lemma secure_the_bag_empty_diverges (fuel : nat) :
  forall (w : Z) (lookup : gmap string TargetCoin.t),
    secure_the_bag fuel [] w lookup = None.
Proof.
  induction fuel as [|fuel IH]; intros w lookup; [reflexivity|].
  simpl. apply IH.
Qed.

(** C3, amended: for a non-empty list of targets and a width of at least 2
    the recursion stops within [len(targets)] levels, with a root or with
    the range error of [uint64]; when no amount is negative and the amounts
    add up to at most [2^64 - 1] it stops at the single-element base case
    and returns a root. *)
Theorem secure_the_bag_terminates_width_2 (targets : list Target.t) (leaf_width : Z)
    (parent_puzzle_lookup : gmap string TargetCoin.t) :
  targets <> [] -> 2 <= leaf_width ->
  exists lookup' outcome,
    secure_the_bag (length targets) targets leaf_width parent_puzzle_lookup
    = Some (lookup', outcome)
    /\ (Forall (fun t => 0 <= Target.amount t) targets ->
        sum_amounts targets <= UINT64_MAX ->
        exists root, outcome = Ok root).
Proof.
  intros Hne Hw. apply secure_the_bag_terminates; [exact Hw|].
  destruct targets; [congruence|]. simpl. lia.
Qed.

(** *** The table as the sequence of its writes *)

Lemma record_parents_app (before after : list Target.t) (puzzle : Program) (amount : Z)
    (lookup : gmap string TargetCoin.t) :
  record_parents (before ++ after) puzzle amount lookup
  = record_parents after puzzle amount (record_parents before puzzle amount lookup).
Proof.
  revert lookup. induction before as [|t before IH]; intros lookup; [reflexivity|].
  simpl. apply IH.
Qed.

Lemma record_parents_untouched (batch : list Target.t) (puzzle : Program) (amount : Z)
    (lookup : gmap string TargetCoin.t) (key : string) :
  (forall t, In t batch -> key <> hex (Target.puzzle_hash t)) ->
  record_parents batch puzzle amount lookup !! key = lookup !! key.
Proof.
  intros Hnot.
  destruct (record_parents_frame batch puzzle amount lookup key)
    as [[Hsame _]|(t & Hin & Hkey & _)]; [exact Hsame|].
  exfalso. exact (Hnot t Hin Hkey).
Qed.

(** Within a batch the member written last stays. *)
Lemma record_parents_last (before after : list Target.t) (t : Target.t)
    (puzzle : Program) (amount : Z) (lookup : gmap string TargetCoin.t) :
  (forall t', In t' after -> Target.puzzle_hash t' <> Target.puzzle_hash t) ->
  record_parents (before ++ t :: after) puzzle amount lookup
  !! hex (Target.puzzle_hash t)
  = Some (TargetCoin_init t puzzle amount).
Proof.
  intros Hafter. rewrite record_parents_app. simpl.
  rewrite record_parents_untouched.
  - apply lookup_insert_eq.
  - intros t' Hin Hkey. apply hex_inj in Hkey. apply (Hafter t' Hin). symmetry. exact Hkey.
Qed.

Lemma recorded_app (earlier later : list (list Target.t))
    (lookup : gmap string TargetCoin.t) :
  recorded (earlier ++ later) lookup = recorded later (recorded earlier lookup).
Proof. unfold recorded. apply foldl_app. Qed.

Lemma recorded_cons (batch : list Target.t) (later : list (list Target.t))
    (lookup : gmap string TargetCoin.t) :
  recorded (batch :: later) lookup
  = recorded later
      (record_parents batch (batch_puzzle batch) (sum_amounts batch) lookup).
Proof. reflexivity. Qed.

Lemma recorded_untouched (batches : list (list Target.t)) :
  forall (lookup : gmap string TargetCoin.t) (key : string),
    (forall batch t, In batch batches -> In t batch ->
       key <> hex (Target.puzzle_hash t)) ->
    recorded batches lookup !! key = lookup !! key.
Proof.
  induction batches as [|batch later IH]; intros lookup key Hnot; [reflexivity|].
  rewrite recorded_cons, IH.
  - apply record_parents_untouched. intros t Hin. apply (Hnot batch t); [left; reflexivity|exact Hin].
  - intros b t Hb Hin. apply (Hnot b t); [right; exact Hb|exact Hin].
Qed.

(** Over all the batches the write of the last batch that holds the puzzle
    hash stays. *)
Lemma recorded_last_write (earlier later : list (list Target.t))
    (before after : list Target.t) (t : Target.t) (lookup : gmap string TargetCoin.t) :
  (forall t', In t' after -> Target.puzzle_hash t' <> Target.puzzle_hash t) ->
  (forall batch' t', In batch' later -> In t' batch' ->
     Target.puzzle_hash t' <> Target.puzzle_hash t) ->
  recorded (earlier ++ (before ++ t :: after) :: later) lookup
  !! hex (Target.puzzle_hash t)
  = Some (TargetCoin.mk t (batch_puzzle (before ++ t :: after))
            (get_tree_hash (batch_puzzle (before ++ t :: after)))
            (sum_amounts (before ++ t :: after))).
Proof.
  intros Hafter Hlater. rewrite recorded_app, recorded_cons, recorded_untouched.
  - rewrite record_parents_last by exact Hafter. reflexivity.
  - intros b t' Hb Hin Hkey. apply hex_inj in Hkey.
    apply (Hlater b t' Hb Hin). symmetry. exact Hkey.
Qed.

Lemma process_batches_recorded (batches : list (list Target.t)) :
  forall (results results' : list Target.t) (lookup lookup' : gmap string TargetCoin.t),
    process_batches batches results lookup = (lookup', Ok results') ->
    lookup' = recorded batches lookup.
Proof.
  induction batches as [|batch rest IH]; intros results results' lookup lookup' Hrun.
  - simpl in Hrun. inversion Hrun; subst. reflexivity.
  - rewrite process_batches_cons in Hrun.
    destruct (uint64 (sum_amounts batch)) as [amount|e] eqn:Hamount;
      [|inversion Hrun].
    apply uint64_Ok in Hamount. destruct Hamount as [-> _].
    rewrite recorded_cons. eapply IH. exact Hrun.
Qed.

(** A call that returns a root has applied the writes of all its batches,
    level after level, to the dictionary it was given. *)
Lemma secure_the_bag_recorded (fuel : nat) :
  forall (targets : list Target.t) (w : Z) (lookup lookup' : gmap string TargetCoin.t)
         (root : list byte),
    secure_the_bag fuel targets w lookup = Some (lookup', Ok root) ->
    lookup' = recorded (all_batches fuel targets w) lookup.
Proof.
  induction fuel as [|fuel IH]; intros targets w lookup lookup' root Hrun;
    [discriminate|].
  destruct (decide (length targets = 1%nat)) as [Hone|Hmany].
  - destruct targets as [|t [|? ?]]; try discriminate.
    simpl in Hrun. inversion Hrun; subst. reflexivity.
  - rewrite secure_the_bag_step in Hrun by exact Hmany.
    rewrite all_batches_step by exact Hmany.
    destruct (process_batches (batch_the_bag targets w) [] lookup)
      as [lookup1 [results|e]] eqn:Hbatches; [|discriminate].
    destruct (process_batches_written _ _ _ _ _ Hbatches) as (Hres & _ & _).
    simpl in Hres. subst results.
    rewrite recorded_app.
    rewrite <- (process_batches_recorded _ _ _ _ _ Hbatches).
    eapply IH. exact Hrun.
Qed.




(** C5: every parent a call records stands for one of the batches the call
    went through.  Its puzzle is [Program.to] of the pair of the integer 1
    (the quote operator) and the list that starts with the announcement
    [[bytes([60]), b"$"]] and goes on with one condition
    [[bytes([51]), puzzle_hash, amount, [puzzle_hash]]] per batch member, in
    the members' order, with the member's own puzzle hash and amount; run on
    any solution it yields that list, as a CLVM list; its puzzle hash is the
    tree hash of the puzzle and its amount is the sum of the members'
    amounts. *)
Theorem secure_the_bag_parent_puzzle (fuel : nat) (targets : list Target.t)
    (leaf_width : Z) (lookup lookup' : gmap string TargetCoin.t)
    (outcome : result (list byte)) (key : string) (parent : TargetCoin.t) :
  secure_the_bag fuel targets leaf_width lookup = Some (lookup', outcome) ->
  lookup' !! key = Some parent ->
  lookup !! key = Some parent
  \/ exists batch,
       In batch (all_batches fuel targets leaf_width)
       /\ In (TargetCoin.target parent) batch
       /\ key = hex (Target.puzzle_hash (TargetCoin.target parent))
       /\ TargetCoin.puzzle parent
          = Program_to
              (PyPair (PyInt 1)
                 (PyList
                    (PyList [PyBytes [x3c]; PyBytes [x24]]
                     :: map (fun member =>
                               PyList [PyBytes [x33];
                                       PyBytes (Target.puzzle_hash member);
                                       PyInt (Target.amount member);
                                       PyList [PyBytes (Target.puzzle_hash member)]])
                          batch)))
       /\ (forall solution,
            run (TargetCoin.puzzle parent) solution
            = Some (Cons (Cons (Atom [x3c]) (Cons (Atom [x24]) (Atom [])))
                      (foldr (fun member conditions =>
                                Cons (Cons (Atom [x33])
                                        (Cons (Atom (Target.puzzle_hash member))
                                           (Cons (Atom (int_to_bytes (Target.amount member)))
                                              (Cons (Cons (Atom (Target.puzzle_hash member))
                                                       (Atom []))
                                                 (Atom [])))))
                                  conditions)
                         (Atom []) batch)))
       /\ TargetCoin.puzzle_hash parent = get_tree_hash (TargetCoin.puzzle parent)
       /\ TargetCoin.amount parent
          = foldr (fun member total => Target.amount member + total) 0 batch.
Proof.
  intros Hrun Hlook.
  destruct (secure_the_bag_frame _ _ _ _ _ _ Hrun key)
    as [Hsame|(parent' & Hlook' & batch & Hb & Ht & Hkey & Hparent & _)].
  - left. congruence.
  - right. assert (parent' = parent) as -> by congruence.
    assert (TargetCoin.puzzle parent = batch_puzzle batch) as Hpuzzle
      by (rewrite Hparent; reflexivity).
    assert (TargetCoin.puzzle_hash parent = get_tree_hash (batch_puzzle batch))
      as Hhash by (rewrite Hparent; reflexivity).
    assert (TargetCoin.amount parent = sum_amounts batch) as Hamount
      by (rewrite Hparent; reflexivity).
    exists batch. rewrite Hpuzzle.
    split; [exact Hb|]. split; [exact Ht|]. split; [exact Hkey|].
    split; [reflexivity|]. split; [|split; [exact Hhash|exact Hamount]].
    intros solution. rewrite run_batch_puzzle. f_equal.
    unfold batch_conditions. rewrite Program_to_list_cons. f_equal.
    clear. induction batch as [|member batch IH]; [reflexivity|].
    change (map create_coin_condition (member :: batch))
      with (create_coin_condition member :: map create_coin_condition batch).
    rewrite Program_to_list_cons, IH. reflexivity.
Qed.

End BuilderFacts.

(** ** The chain resolver *)

Section ResolverFacts.
Variable std_hash : list byte -> list byte.
Variable get_tree_hash : Program -> list byte.
Variable int_to_bytes : Z -> list byte.

Local Abbreviation Program_to := (Program_to int_to_bytes).
Local Abbreviation Coin_name := (Coin_name std_hash int_to_bytes).
Local Abbreviation parent_of_puzzle_hash := (parent_of_puzzle_hash std_hash int_to_bytes).
Local Abbreviation secure_the_bag := (secure_the_bag get_tree_hash int_to_bytes).
Local Abbreviation all_batches := (all_batches get_tree_hash int_to_bytes).
Local Abbreviation batch_puzzle := (batch_puzzle int_to_bytes).

Lemma parent_of_puzzle_hash_root (fuel : nat) (g h : list byte)
    (lookup : gmap string TargetCoin.t) :
  lookup !! hex h = None ->
  parent_of_puzzle_hash (S fuel) g h lookup = Some (None, g).
Proof. intros Hnone. simpl. rewrite Hnone. reflexivity. Qed.

Lemma parent_of_puzzle_hash_child (fuel : nat) (g h : list byte)
    (lookup : gmap string TargetCoin.t) (parent : TargetCoin.t)
    (parent_spend : option CoinSpend.t) (parent_coin_info : list byte) :
  lookup !! hex h = Some parent ->
  parent_of_puzzle_hash fuel g (TargetCoin.puzzle_hash parent) lookup
  = Some (parent_spend, parent_coin_info) ->
  parent_of_puzzle_hash (S fuel) g h lookup
  = let coin :=
      Coin.mk parent_coin_info (TargetCoin.puzzle_hash parent)
        (if decide (parent_coin_info = g) then 0 else TargetCoin.amount parent) in
    Some (Some (CoinSpend.mk coin (TargetCoin.puzzle parent) (Program_to (PyList []))),
          Coin_name coin).
Proof. intros Hsome Hrec. simpl. rewrite Hsome, Hrec. reflexivity. Qed.

Lemma parent_of_puzzle_hash_mono (fuel : nat) :
  forall (g h : list byte) (lookup : gmap string TargetCoin.t) answer,
    parent_of_puzzle_hash fuel g h lookup = Some answer ->
    parent_of_puzzle_hash (S fuel) g h lookup = Some answer.
Proof.
  induction fuel as [|fuel IH]; intros g h lookup answer Hrun; [discriminate|].
  simpl in Hrun. destruct (lookup !! hex h) as [parent|] eqn:Hlook.
  - destruct (parent_of_puzzle_hash fuel g (TargetCoin.puzzle_hash parent) lookup)
      as [[sp pci]|] eqn:Hrec; [|discriminate].
    rewrite (parent_of_puzzle_hash_child _ _ _ _ _ _ _ Hlook (IH _ _ _ _ Hrec)).
    exact Hrun.
  - rewrite parent_of_puzzle_hash_root by exact Hlook. exact Hrun.
Qed.

Lemma parent_of_puzzle_hash_mono_le (fuel fuel' : nat) (g h : list byte)
    (lookup : gmap string TargetCoin.t) answer :
  (fuel <= fuel')%nat ->
  parent_of_puzzle_hash fuel g h lookup = Some answer ->
  parent_of_puzzle_hash fuel' g h lookup = Some answer.
Proof.
  induction 1 as [|fuel' _ IH]; intros Hrun; [exact Hrun|].
  apply parent_of_puzzle_hash_mono. apply IH. exact Hrun.
Qed.

Lemma parent_of_puzzle_hash_functional (fuel1 fuel2 : nat) (g h : list byte)
    (lookup : gmap string TargetCoin.t) answer1 answer2 :
  parent_of_puzzle_hash fuel1 g h lookup = Some answer1 ->
  parent_of_puzzle_hash fuel2 g h lookup = Some answer2 ->
  answer1 = answer2.
Proof.
  intros H1 H2. destruct (Nat.le_ge_cases fuel1 fuel2) as [Hle|Hle].
  - apply (parent_of_puzzle_hash_mono_le _ _ _ _ _ _ Hle) in H1. congruence.
  - apply (parent_of_puzzle_hash_mono_le _ _ _ _ _ _ Hle) in H2. congruence.
Qed.

(** What an answer that carries a spend says about the table. *)
Lemma parent_of_puzzle_hash_spend (fuel : nat) (g h : list byte)
    (lookup : gmap string TargetCoin.t) (coin_spend : CoinSpend.t) (name : list byte) :
  parent_of_puzzle_hash fuel g h lookup = Some (Some coin_spend, name) ->
  name = Coin_name (CoinSpend.coin coin_spend)
  /\ exists parent fuel' parent_spend,
       lookup !! hex h = Some parent
       /\ Coin.puzzle_hash (CoinSpend.coin coin_spend) = TargetCoin.puzzle_hash parent
       /\ CoinSpend.puzzle_reveal coin_spend = TargetCoin.puzzle parent
       /\ parent_of_puzzle_hash fuel' g (TargetCoin.puzzle_hash parent) lookup
          = Some (parent_spend, Coin.parent_coin_info (CoinSpend.coin coin_spend)).
Proof.
  destruct fuel as [|fuel]; [discriminate|]. simpl.
  destruct (lookup !! hex h) as [parent|] eqn:Hlook; [|discriminate].
  destruct (parent_of_puzzle_hash fuel g (TargetCoin.puzzle_hash parent) lookup)
    as [[sp pci]|] eqn:Hrec; [|discriminate].
  intros H. inversion H; subst. simpl. split; [reflexivity|].
  exists parent, fuel, sp. auto.
Qed.

(** *** Tables on which the resolver terminates *)

Section Ranked.
Variable rank : list byte -> nat.

Local Abbreviation ranked := (ranked rank).

Lemma rank_bound (lookup : gmap string TargetCoin.t) :
  exists bound, forall key parent,
    lookup !! key = Some parent ->
    (rank (TargetCoin.puzzle_hash parent) <= bound)%nat.
Proof.
  induction lookup as [|key parent lookup Hfresh IH] using map_ind.
  - exists 0%nat. intros key parent Hlook. rewrite lookup_empty in Hlook. discriminate.
  - destruct IH as [bound Hbound].
    exists (Nat.max bound (rank (TargetCoin.puzzle_hash parent))).
    intros key' parent' Hlook.
    destruct (decide (key = key')) as [->|Hne].
    + rewrite lookup_insert_eq in Hlook. inversion Hlook; subst. lia.
    + rewrite lookup_insert_ne in Hlook by exact Hne.
      specialize (Hbound _ _ Hlook). lia.
Qed.

Lemma ranked_terminates (lookup : gmap string TargetCoin.t) (g : list byte) :
  ranked lookup ->
  forall h, exists fuel answer, parent_of_puzzle_hash fuel g h lookup = Some answer.
Proof.
  intros Hranked. destruct (rank_bound lookup) as [bound Hbound].
  assert (forall k h, (bound + 1 - rank h <= k)%nat ->
            exists answer, parent_of_puzzle_hash (S k) g h lookup = Some answer) as Hmain.
  { induction k as [|k IH]; intros h Hk.
    - destruct (lookup !! hex h) as [parent|] eqn:Hlook.
      + specialize (Hranked _ _ Hlook). specialize (Hbound _ _ Hlook). lia.
      + eexists. apply parent_of_puzzle_hash_root. exact Hlook.
    - destruct (lookup !! hex h) as [parent|] eqn:Hlook.
      + pose proof (Hranked _ _ Hlook) as Hlt.
        destruct (IH (TargetCoin.puzzle_hash parent)) as [[sp pci] Hrec]; [lia|].
        eexists. eapply parent_of_puzzle_hash_child; eassumption.
      + eexists. apply parent_of_puzzle_hash_root. exact Hlook. }
  intros h. destruct (Hmain (bound + 1 - rank h)%nat h) as [answer Hrun]; [lia|].
  eauto.
Qed.

(** The tables of the builder are ranked as soon as, in the tree that was
    built, the hash of every batch puzzle ranks above the puzzle hashes of
    the members of that batch: no puzzle hash of the tree is its own
    ancestor.  The height of a puzzle hash in the tree is such a rank unless
    two different levels of the tree share a puzzle hash. *)
Lemma secure_the_bag_ranked (fuel : nat) (targets : list Target.t) (w : Z)
    (lookup lookup' : gmap string TargetCoin.t) (outcome : result (list byte)) :
  (forall batch t,
     In batch (all_batches fuel targets w) -> In t batch ->
     (rank (Target.puzzle_hash t) < rank (get_tree_hash (batch_puzzle batch)))%nat) ->
  ranked lookup ->
  secure_the_bag fuel targets w lookup = Some (lookup', outcome) ->
  ranked lookup'.
Proof.
  intros Hlevels Hranked Hrun h parent Hlook.
  destruct (secure_the_bag_frame _ _ _ _ _ _ _ _ Hrun (hex h))
    as [Hsame|(parent' & Hlook' & batch & Hb & Ht & Hkey & Hparent & _)].
  - apply Hranked. congruence.
  - assert (parent' = parent) as -> by congruence.
    apply hex_inj in Hkey. subst h.
    assert (TargetCoin.puzzle_hash parent = get_tree_hash (batch_puzzle batch)) as ->
      by (rewrite Hparent; reflexivity).
    apply Hlevels; assumption.
Qed.

(** C1: on a table built by [secure_the_bag] in whose tree no puzzle hash is
    its own ancestor (the hash of each batch puzzle of the tree ranks above
    the puzzle hashes of that batch's members), for a puzzle hash with an
    entry the resolver returns; the coin of the spend it returns has the
    resolved identity of the parent's own parent as its parent, the parent's
    puzzle hash, and the amount 0 when that identity is the genesis
    reference (as it is when the parent has no entry itself, the root) and
    the parent's amount, the sum over its batch, otherwise; the identity it
    returns is [std_hash] of these three, concatenated.  For a puzzle hash
    without an entry it returns no spend and the genesis reference. *)
Theorem parent_of_puzzle_hash_identity (fuel : nat) (targets : list Target.t)
    (leaf_width : Z) (lookup : gmap string TargetCoin.t) (root : list byte)
    (genesis_coin_name puzzle_hash : list byte) :
  secure_the_bag fuel targets leaf_width ∅ = Some (lookup, Ok root) ->
  (forall batch t,
     In batch (all_batches fuel targets leaf_width) -> In t batch ->
     (rank (Target.puzzle_hash t) < rank (get_tree_hash (batch_puzzle batch)))%nat) ->
  match lookup !! hex puzzle_hash with
  | None =>
      forall n,
        parent_of_puzzle_hash (S n) genesis_coin_name puzzle_hash lookup
        = Some (None, genesis_coin_name)
  | Some parent =>
      exists n parent_spend parent_identity,
        parent_of_puzzle_hash n genesis_coin_name (TargetCoin.puzzle_hash parent) lookup
        = Some (parent_spend, parent_identity)
        /\ (lookup !! hex (TargetCoin.puzzle_hash parent) = None ->
            parent_identity = genesis_coin_name)
        /\ (exists batch,
              In batch (all_batches fuel targets leaf_width)
              /\ TargetCoin.amount parent = sum_amounts batch)
        /\ let amount :=
             if decide (parent_identity = genesis_coin_name)
             then 0 else TargetCoin.amount parent in
           forall m, (n < m)%nat ->
             parent_of_puzzle_hash m genesis_coin_name puzzle_hash lookup
             = Some (Some (CoinSpend.mk
                             (Coin.mk parent_identity (TargetCoin.puzzle_hash parent) amount)
                             (TargetCoin.puzzle parent) (Program_to (PyList []))),
                     std_hash (parent_identity ++ TargetCoin.puzzle_hash parent
                               ++ int_to_bytes amount))
  end.
Proof.
  intros Hbuilt Hlevels.
  destruct (lookup !! hex puzzle_hash) as [parent|] eqn:Hlook.
  - assert (ranked lookup) as Hranked.
    { eapply secure_the_bag_ranked; [exact Hlevels| |exact Hbuilt].
      intros h p Hh. rewrite lookup_empty in Hh. discriminate. }
    destruct (ranked_terminates lookup genesis_coin_name Hranked
                (TargetCoin.puzzle_hash parent)) as (n & [sp pid] & Hrec).
    exists n, sp, pid. split; [exact Hrec|]. split; [|split].
    + intros Hroot. destruct n as [|n]; [discriminate|].
      rewrite parent_of_puzzle_hash_root in Hrec by exact Hroot. congruence.
    + destruct (secure_the_bag_frame _ _ _ _ _ _ _ _ Hbuilt (hex puzzle_hash))
        as [Hsame|(parent' & Hlook' & batch & Hb & _ & _ & Hparent & _)].
      * rewrite lookup_empty in Hsame. congruence.
      * assert (parent' = parent) as -> by congruence.
        exists batch. split; [exact Hb|]. rewrite Hparent. reflexivity.
    + intros amount m Hm. destruct m as [|m]; [lia|].
      assert (n <= m)%nat as Hle by lia.
      pose proof (parent_of_puzzle_hash_mono_le _ _ _ _ _ _ Hle Hrec) as Hrec'.
      rewrite (parent_of_puzzle_hash_child _ _ _ _ _ _ _ Hlook Hrec').
      reflexivity.
  - intros n. apply parent_of_puzzle_hash_root. exact Hlook.
Qed.

End Ranked.
End ResolverFacts.

(** ** The unwind planner *)

Section UnwindFacts.
Variable std_hash : list byte -> list byte.
Variable int_to_bytes : Z -> list byte.
Variable ledger : list byte -> option CoinRecord.t.
Variable g : list byte.
Variable lookup : gmap string TargetCoin.t.

Local Abbreviation Coin_name := (Coin_name std_hash int_to_bytes).
Local Abbreviation parent_of_puzzle_hash := (parent_of_puzzle_hash std_hash int_to_bytes).
Local Abbreviation get_unwind_loop := (get_unwind_loop std_hash int_to_bytes).
Local Abbreviation get_unwind := (get_unwind std_hash int_to_bytes).
Local Abbreviation unwind_the_bag := (unwind_the_bag std_hash int_to_bytes).
Local Abbreviation walk := (walk std_hash int_to_bytes ledger g lookup).
Local Abbreviation resolves := (resolves std_hash int_to_bytes g lookup).
Local Abbreviation ancestor_state := (ancestor_state std_hash int_to_bytes ledger).

Lemma get_unwind_loop_sound (iterations fuel : nat) :
  forall (current : list byte) (required out : list CoinSpend.t),
    get_unwind_loop iterations fuel ledger g lookup (Some current) required = Some out ->
    exists spends, out = required ++ spends /\ walk current spends.
Proof.
  induction iterations as [|iterations IH]; intros current required out Hrun;
    [discriminate|].
  simpl in Hrun.
  destruct (parent_of_puzzle_hash fuel g current lookup) as [[[cs|] name]|] eqn:Hres;
    [| |discriminate].
  - destruct (ledger (Coin_name (CoinSpend.coin cs))) as [response|] eqn:Hledger.
    + destruct (CoinRecord.spent_block_index response =? 0) eqn:Hindex;
        inversion Hrun; subst.
      * exists [cs]. split; [reflexivity|].
        eapply walk_unspent; [exists fuel; exact Hres|].
        unfold ancestor_state, coin_state. rewrite Hledger, Hindex. reflexivity.
      * exists []. split; [rewrite app_nil_r; reflexivity|].
        eapply walk_spent; [exists fuel; exact Hres|].
        unfold ancestor_state, coin_state. rewrite Hledger, Hindex. reflexivity.
    + destruct (IH _ _ _ Hrun) as (spends & -> & Hwalk).
      exists (cs :: spends). split; [rewrite <- app_assoc; reflexivity|].
      eapply walk_unknown; [exists fuel; exact Hres| |exact Hwalk].
      unfold ancestor_state, coin_state. rewrite Hledger. reflexivity.
  - inversion Hrun; subst. exists []. split; [rewrite app_nil_r; reflexivity|].
    eapply walk_no_parent. exists fuel. exact Hres.
Qed.

Lemma get_unwind_loop_more_fuel (iterations fuel fuel' : nat) :
  (fuel <= fuel')%nat ->
  forall (current : option (list byte)) (required out : list CoinSpend.t),
    get_unwind_loop iterations fuel ledger g lookup current required = Some out ->
    get_unwind_loop iterations fuel' ledger g lookup current required = Some out.
Proof.
  intros Hle. induction iterations as [|iterations IH];
    intros current required out Hrun; [discriminate|].
  simpl in *. destruct current as [current|]; [|exact Hrun].
  destruct (parent_of_puzzle_hash fuel g current lookup) as [answer|] eqn:Hres;
    [|discriminate].
  rewrite (parent_of_puzzle_hash_mono_le _ _ _ _ _ _ _ _ Hle Hres).
  destruct answer as [[cs|] name]; [|exact Hrun].
  destruct (ledger (Coin_name (CoinSpend.coin cs))); [exact Hrun|].
  apply IH. exact Hrun.
Qed.

Lemma get_unwind_loop_complete (current : list byte) (spends : list CoinSpend.t) :
  walk current spends ->
  exists iterations fuel,
    forall required,
      get_unwind_loop iterations fuel ledger g lookup (Some current) required
      = Some (required ++ spends).
Proof.
  induction 1 as [current name [fuel Hres]
                 |current cs name rest [fuel Hres] Hstate _ (iterations & fuel' & IH)
                 |current cs name [fuel Hres] Hstate
                 |current cs name [fuel Hres] Hstate].
  - exists 1%nat, fuel. intros required. simpl. rewrite Hres, app_nil_r. reflexivity.
  - exists (S iterations), (Nat.max fuel fuel'). intros required. simpl.
    rewrite (parent_of_puzzle_hash_mono_le _ _ _ _ _ _ _ _ (Nat.le_max_l _ _) Hres).
    unfold ancestor_state, coin_state in Hstate.
    destruct (ledger (Coin_name (CoinSpend.coin cs))) as [response|].
    + destruct (CoinRecord.spent_block_index response =? 0); discriminate.
    + rewrite (get_unwind_loop_more_fuel _ _ _ (Nat.le_max_r fuel fuel') _ _ _
                 (IH (required ++ [cs]))).
      rewrite <- app_assoc. reflexivity.
  - exists 1%nat, fuel. intros required. simpl. rewrite Hres.
    unfold ancestor_state, coin_state in Hstate.
    destruct (ledger (Coin_name (CoinSpend.coin cs))) as [response|]; [|discriminate].
    destruct (CoinRecord.spent_block_index response =? 0); [reflexivity|discriminate].
  - exists 1%nat, fuel. intros required. simpl. rewrite Hres.
    unfold ancestor_state, coin_state in Hstate.
    destruct (ledger (Coin_name (CoinSpend.coin cs))) as [response|]; [|discriminate].
    destruct (CoinRecord.spent_block_index response =? 0); [discriminate|].
    rewrite app_nil_r. reflexivity.
Qed.


(** The first spend of a walk is the spend of the parent of the starting
    puzzle hash. *)
Lemma walk_first (current : list byte) (coin_spend : CoinSpend.t)
    (rest : list CoinSpend.t) :
  walk current (coin_spend :: rest) ->
  exists name, resolves current (Some coin_spend, name).
Proof. intros Hwalk. inversion Hwalk; subst; eauto. Qed.

(** In the order of the walk every spend is followed by the spend of its
    parent coin. *)
Lemma walk_linked (current : list byte) (spends : list CoinSpend.t) :
  walk current spends ->
  forall before child parent after,
    spends = before ++ child :: parent :: after ->
    Coin.parent_coin_info (CoinSpend.coin child) = Coin_name (CoinSpend.coin parent).
Proof.
  induction 1 as [| current cs name rest [fuel Hres] _ Hrest IH | |];
    intros before child parent after Heq.
  - destruct before; discriminate.
  - destruct before as [|b before]; simpl in Heq.
    + inversion Heq; subst. clear Heq.
      destruct (walk_first _ _ _ Hrest) as (name' & fuel' & Hres').
      destruct (parent_of_puzzle_hash_spend _ _ _ _ _ _ _ _ Hres)
        as (_ & p & fuel0 & sp & Hlook & Hph & _ & Hrec).
      rewrite Hph in Hres'.
      pose proof (parent_of_puzzle_hash_functional _ _ _ _ _ _ _ _ _ Hrec Hres') as Heq.
      inversion Heq; subst.
      destruct (parent_of_puzzle_hash_spend _ _ _ _ _ _ _ _ Hres') as [Hname _].
      congruence.
    + inversion Heq; subst. eapply IH. reflexivity.
  - destruct before as [|? [|? ?]]; discriminate.
  - destruct before; discriminate.
Qed.


(** C6: [unwind_the_bag] returns the list of [get_unwind] reversed.  In it
    every spend is followed by the spend of a child of its coin (the parent
    identity of the next coin is the name of this coin), down to the last
    one, which spends the parent of the target. *)
Theorem unwind_the_bag_root_first (iterations fuel : nat) (target : list byte)
    (spends : list CoinSpend.t) :
  unwind_the_bag iterations fuel ledger target g lookup = Some spends ->
  (exists walked,
     get_unwind iterations fuel ledger g lookup target = Some walked
     /\ spends = rev walked)
  /\ (forall before parent child after,
        spends = before ++ parent :: child :: after ->
        Coin.parent_coin_info (CoinSpend.coin child) = Coin_name (CoinSpend.coin parent))
  /\ (forall before last,
        spends = before ++ [last] ->
        exists entry,
          lookup !! hex target = Some entry
          /\ Coin.puzzle_hash (CoinSpend.coin last) = TargetCoin.puzzle_hash entry
          /\ CoinSpend.puzzle_reveal last = TargetCoin.puzzle entry).
Proof.
  unfold unwind_the_bag. intros Hrun.
  destruct (get_unwind iterations fuel ledger g lookup target) as [walked|] eqn:Hget;
    [|discriminate].
  inversion Hrun; subst. clear Hrun.
  unfold get_unwind in Hget.
  destruct (get_unwind_loop_sound _ _ _ _ _ Hget) as (walked' & Heq & Hwalk).
  simpl in Heq. subst walked'.
  split; [exists walked; auto|]. split.
  - intros before parent child after Heq.
    apply (f_equal (@rev _)) in Heq. rewrite rev_involutive in Heq.
    rewrite rev_app_distr in Heq. simpl in Heq. rewrite <- !app_assoc in Heq.
    simpl in Heq. eapply walk_linked; eassumption.
  - intros before last Heq.
    apply (f_equal (@rev _)) in Heq. rewrite rev_involutive in Heq.
    rewrite rev_app_distr in Heq. simpl in Heq. subst walked.
    destruct (walk_first _ _ _ Hwalk) as (name & fuel' & Hres).
    destruct (parent_of_puzzle_hash_spend _ _ _ _ _ _ _ _ Hres)
      as (_ & entry & _ & _ & Hlook & Hph & Hpuzzle & _).
    exists entry. auto.
Qed.

End UnwindFacts.

(** ** The shared default dictionary *)

Section StoreFacts.
Variable get_tree_hash : Program -> list byte.
Variable int_to_bytes : Z -> list byte.

Local Abbreviation secure_the_bag := (secure_the_bag get_tree_hash int_to_bytes).
Local Abbreviation call_secure_the_bag := (call_secure_the_bag get_tree_hash int_to_bytes).
Local Abbreviation all_batches := (all_batches get_tree_hash int_to_bytes).
Local Abbreviation built_from := (built_from get_tree_hash int_to_bytes).
Local Abbreviation batch_puzzle := (batch_puzzle int_to_bytes).
Local Abbreviation recorded := (recorded get_tree_hash int_to_bytes).

Lemma call_default_inv (fuel : nat) (targets : list Target.t) (w : Z)
    (store store' : gmap nat (gmap string TargetCoin.t))
    (outcome : result (list byte * nat)) :
  call_secure_the_bag fuel targets w None store = Some (store', outcome) ->
  exists before after outcome',
    store !! DEFAULT_LOOKUP = Some before
    /\ secure_the_bag fuel targets w before = Some (after, outcome')
    /\ store' = <[DEFAULT_LOOKUP := after]> store
    /\ outcome = match outcome' with
                 | Ok root => Ok (root, DEFAULT_LOOKUP)
                 | Raise e => Raise e
                 end.
Proof.
  unfold call_secure_the_bag. simpl.
  destruct (store !! DEFAULT_LOOKUP) as [before|]; [|discriminate].
  destruct (secure_the_bag fuel targets w before) as [[after outcome']|] eqn:Hrun;
    [|discriminate].
  intros H. inversion H; subst. eauto 10.
Qed.

(** C10, amended: two calls that leave the argument out work on the same
    dictionary object.  The table the second call returns is that object:
    the table the first call left, with the writes of the second call's
    batches applied to it in order.  A key the second call does not write
    keeps the entry of the first call; a key the second call writes holds
    the second call's last entry for it, whatever the first call had bound
    it to.  So every key of the first call is still bound, though not always
    to the first call's entry, and whenever the first call left a key that
    the second call, run on a fresh dictionary, does not write, the table the
    second call returns differs from the one its arguments alone give. *)
Theorem default_lookup_is_shared (fuel1 fuel2 : nat) (targets1 targets2 : list Target.t)
    (w1 w2 : Z) (store1 store2 : gmap nat (gmap string TargetCoin.t))
    (outcome1 : result (list byte * nat)) (root2 : list byte) (reference2 : nat) :
  call_secure_the_bag fuel1 targets1 w1 None initial_store = Some (store1, outcome1) ->
  call_secure_the_bag fuel2 targets2 w2 None store1
  = Some (store2, Ok (root2, reference2)) ->
  reference2 = DEFAULT_LOOKUP
  /\ exists first second,
       secure_the_bag fuel1 targets1 w1 ∅ = Some (first, match outcome1 with
                                                         | Ok (root1, _) => Ok root1
                                                         | Raise e => Raise e
                                                         end)
       /\ store1 !! DEFAULT_LOOKUP = Some first
       /\ store2 !! reference2 = Some second
       /\ second = recorded (all_batches fuel2 targets2 w2) first
       /\ (forall key,
             (forall batch t,
                In batch (all_batches fuel2 targets2 w2) -> In t batch ->
                key <> hex (Target.puzzle_hash t)) ->
             second !! key = first !! key)
       /\ (forall earlier later before after t,
             all_batches fuel2 targets2 w2
             = earlier ++ (before ++ t :: after) :: later ->
             (forall t', In t' after ->
                Target.puzzle_hash t' <> Target.puzzle_hash t) ->
             (forall batch' t', In batch' later -> In t' batch' ->
                Target.puzzle_hash t' <> Target.puzzle_hash t) ->
             second !! hex (Target.puzzle_hash t)
             = Some (TargetCoin.mk t (batch_puzzle (before ++ t :: after))
                       (get_tree_hash (batch_puzzle (before ++ t :: after)))
                       (sum_amounts (before ++ t :: after))))
       /\ (forall key, is_Some (first !! key) -> is_Some (second !! key))
       /\ (forall fresh outcome key,
             secure_the_bag fuel2 targets2 w2 ∅ = Some (fresh, outcome) ->
             is_Some (first !! key) -> fresh !! key = None ->
             second <> fresh).
Proof.
  intros Hcall1 Hcall2.
  destruct (call_default_inv _ _ _ _ _ _ Hcall1)
    as (before1 & first & o1 & Hbefore1 & Hrun1 & -> & ->).
  destruct (call_default_inv _ _ _ _ _ _ Hcall2)
    as (before2 & second & o2 & Hbefore2 & Hrun2 & -> & Ho2).
  unfold initial_store in Hbefore1. rewrite lookup_singleton_eq in Hbefore1.
  inversion Hbefore1; subst before1. clear Hbefore1.
  rewrite lookup_insert_eq in Hbefore2. inversion Hbefore2; subst before2.
  clear Hbefore2.
  destruct o2 as [r2|e2]; inversion Ho2; subst. clear Ho2.
  split; [reflexivity|]. exists first, second.
  pose proof (secure_the_bag_recorded _ _ _ _ _ _ _ _ Hrun2) as Htable.
  assert (forall key, is_Some (first !! key) -> is_Some (second !! key)) as Hdom.
  { intros key [parent Hfirst].
    destruct (secure_the_bag_frame _ _ _ _ _ _ _ _ Hrun2 key)
      as [Hsame|(parent' & Hlook & _)]; [rewrite Hsame|]; eauto. }
  split; [|split; [|split; [|split; [|split; [|split; [|split]]]]]].
  - rewrite Hrun1. destruct o1; reflexivity.
  - apply lookup_insert_eq.
  - apply lookup_insert_eq.
  - exact Htable.
  - intros key Hnone. rewrite Htable. apply recorded_untouched. exact Hnone.
  - intros earlier later before after t Hsplit Hafter Hlater.
    rewrite Htable, Hsplit. apply recorded_last_write; assumption.
  - exact Hdom.
  - intros fresh outcome key _ Hfirst Hfresh ->.
    destruct (Hdom _ Hfirst) as [parent Hsecond]. congruence.
Qed.

End StoreFacts.

(** ** The sample instance: runs of the model and instances of the theorems *)

Lemma sample32_built :
  secure_the_bag Sample32.tree_hash Sample.int_to_bytes 3
    [Sample32.A; Sample32.B; Sample32.C] 2 ∅
  = Some (Sample32.table, Ok Sample32.root).
Proof. vm_cast_no_check (eq_refl (Some (Sample32.table, Ok Sample32.root))). Qed.

Lemma sample32_levels :
  forall batch t,
    In batch (all_batches Sample32.tree_hash Sample.int_to_bytes 3
                [Sample32.A; Sample32.B; Sample32.C] 2) ->
    In t batch ->
    (Sample32.rank (Target.puzzle_hash t)
     < Sample32.rank (Sample32.tree_hash (batch_puzzle Sample.int_to_bytes batch)))%nat.
Proof.
  assert (forallb
            (fun batch =>
               forallb
                 (fun t =>
                    Sample32.rank (Target.puzzle_hash t)
                    <? Sample32.rank
                         (Sample32.tree_hash (batch_puzzle Sample.int_to_bytes batch)))%nat
                 batch)
            (all_batches Sample32.tree_hash Sample.int_to_bytes 3
               [Sample32.A; Sample32.B; Sample32.C] 2)
          = true) as Hall by (vm_compute; reflexivity).
  intros batch t Hbatch Ht.
  rewrite List.forallb_forall in Hall. specialize (Hall batch Hbatch).
  rewrite List.forallb_forall in Hall. apply Nat.ltb_lt. exact (Hall t Ht).
Qed.

(** The run of the specification's example: three leaves, width 2. *)
Example sample_batches :
  batch_the_bag [Sample.A; Sample.B; Sample.C] 2 = [[Sample.A; Sample.B]; [Sample.C]].
Proof. reflexivity. Qed.

Example sample_built :
  secure_the_bag Sample.tree_hash Sample.int_to_bytes 3
    [Sample.A; Sample.B; Sample.C] 2 ∅
  = Some (Sample.table, Ok Sample.root).
Proof. vm_compute. reflexivity. Qed.

Example sample_walk_lengths :
  length Sample.walked = 2%nat
  /\ (length <$> get_unwind Sample.std_hash Sample.int_to_bytes 3 3
                   Sample.unspent_ledger Sample.genesis Sample.table
                   (Target.puzzle_hash Sample.A)) = Some 1%nat
  /\ (length <$> get_unwind Sample.std_hash Sample.int_to_bytes 3 3
                   Sample.spent_ledger Sample.genesis Sample.table
                   (Target.puzzle_hash Sample.A)) = Some 0%nat.
Proof. vm_compute. auto. Qed.

Lemma batch_the_bag_partition_witness :
  [Sample.A; Sample.B; Sample.C] <> [] /\ 1 <= 2
  /\ concat (batch_the_bag [Sample.A; Sample.B; Sample.C] 2)
     = [Sample.A; Sample.B; Sample.C]
  /\ batch_the_bag [Sample.A; Sample.B; Sample.C] 2 <> []
  /\ forall (i : nat) (batch : list Target.t),
       batch_the_bag [Sample.A; Sample.B; Sample.C] 2 !! i = Some batch ->
       1 <= Z.of_nat (length batch) <= 2
       /\ ((S i < length (batch_the_bag [Sample.A; Sample.B; Sample.C] 2))%nat ->
           Z.of_nat (length batch) = 2).
Proof.
  assert ([Sample.A; Sample.B; Sample.C] <> []) as Hne by discriminate.
  assert (1 <= 2) as Hw by lia.
  split; [exact Hne|]. split; [exact Hw|].
  exact (batch_the_bag_partition [Sample.A; Sample.B; Sample.C] 2 Hne Hw).
Defined.

Lemma secure_the_bag_terminates_width_2_witness :
  [Sample.A; Sample.B; Sample.C] <> [] /\ 2 <= 2
  /\ exists lookup' outcome,
       secure_the_bag Sample.tree_hash Sample.int_to_bytes 3
         [Sample.A; Sample.B; Sample.C] 2 ∅ = Some (lookup', outcome)
       /\ (Forall (fun t => 0 <= Target.amount t) [Sample.A; Sample.B; Sample.C] ->
           sum_amounts [Sample.A; Sample.B; Sample.C] <= UINT64_MAX ->
           exists root, outcome = Ok root).
Proof.
  assert ([Sample.A; Sample.B; Sample.C] <> []) as Hne by discriminate.
  assert (2 <= 2) as Hw by lia.
  split; [exact Hne|]. split; [exact Hw|].
  exact (secure_the_bag_terminates_width_2 Sample.tree_hash Sample.int_to_bytes
           [Sample.A; Sample.B; Sample.C] 2 ∅ Hne Hw).
Defined.

(** C3 as stated fails: with width 1 and two targets no depth of recursion
    reaches the base case, and neither does any on the empty list, whatever
    the width. *)
Lemma secure_the_bag_width_1_counterexample :
  [Sample.A; Sample.B] <> [] /\ 1 <= 1
  /\ (~ exists fuel lookup' outcome,
         secure_the_bag Sample.tree_hash Sample.int_to_bytes fuel
           [Sample.A; Sample.B] 1 ∅ = Some (lookup', outcome))
  /\ (~ exists fuel lookup' outcome,
         secure_the_bag Sample.tree_hash Sample.int_to_bytes fuel
           [] 2 ∅ = Some (lookup', outcome)).
Proof.
  split; [discriminate|]. split; [lia|]. split.
  - intros (fuel & lookup' & outcome & Hrun).
    rewrite secure_the_bag_width_1_diverges in Hrun; [discriminate| |];
      vm_compute; split; discriminate.
  - intros (fuel & lookup' & outcome & Hrun).
    rewrite secure_the_bag_empty_diverges in Hrun. discriminate.
Qed.



Lemma secure_the_bag_parent_puzzle_witness :
  secure_the_bag Sample.tree_hash Sample.int_to_bytes 3
    [Sample.A; Sample.B; Sample.C] 2 ∅ = Some (Sample.table, Ok Sample.root)
  /\ exists parent,
       Sample.table !! hex (Target.puzzle_hash Sample.A) = Some parent
       /\ ((∅ : gmap string TargetCoin.t) !! hex (Target.puzzle_hash Sample.A)
           = Some parent
           \/ exists batch,
                In batch (all_batches Sample.tree_hash Sample.int_to_bytes 3
                            [Sample.A; Sample.B; Sample.C] 2)
                /\ In (TargetCoin.target parent) batch
                /\ hex (Target.puzzle_hash Sample.A)
                   = hex (Target.puzzle_hash (TargetCoin.target parent))
                /\ TargetCoin.puzzle parent
                   = Program_to Sample.int_to_bytes
                       (PyPair (PyInt 1)
                          (PyList
                             (PyList [PyBytes [x3c]; PyBytes [x24]]
                              :: map (fun member =>
                                        PyList [PyBytes [x33];
                                                PyBytes (Target.puzzle_hash member);
                                                PyInt (Target.amount member);
                                                PyList [PyBytes (Target.puzzle_hash member)]])
                                   batch)))
                /\ (forall solution,
                     run Sample.int_to_bytes (TargetCoin.puzzle parent) solution
                     = Some (Cons (Cons (Atom [x3c]) (Cons (Atom [x24]) (Atom [])))
                               (foldr (fun member conditions =>
                                         Cons (Cons (Atom [x33])
                                                 (Cons (Atom (Target.puzzle_hash member))
                                                    (Cons (Atom (Sample.int_to_bytes
                                                                   (Target.amount member)))
                                                       (Cons (Cons (Atom (Target.puzzle_hash
                                                                            member))
                                                                (Atom []))
                                                          (Atom [])))))
                                           conditions)
                                  (Atom []) batch)))
                /\ TargetCoin.puzzle_hash parent
                   = Sample.tree_hash (TargetCoin.puzzle parent)
                /\ TargetCoin.amount parent
                   = foldr (fun member total => Target.amount member + total) 0 batch).
Proof.
  assert (secure_the_bag Sample.tree_hash Sample.int_to_bytes 3
            [Sample.A; Sample.B; Sample.C] 2 ∅ = Some (Sample.table, Ok Sample.root))
    as Hbuilt by (vm_compute; reflexivity).
  assert (exists parent,
            Sample.table !! hex (Target.puzzle_hash Sample.A) = Some parent)
    as [parent Hparent] by (vm_compute; eexists; reflexivity).
  split; [exact Hbuilt|]. exists parent. split; [exact Hparent|].
  exact (secure_the_bag_parent_puzzle Sample.tree_hash Sample.int_to_bytes 3
           [Sample.A; Sample.B; Sample.C] 2 ∅ Sample.table (Ok Sample.root)
           (hex (Target.puzzle_hash Sample.A)) parent Hbuilt Hparent).
Defined.

Lemma secure_the_bag_root_deterministic_witness :
  secure_the_bag Sample.tree_hash Sample.int_to_bytes 3
    [Sample.A; Sample.B; Sample.C] 2 ∅ = Some (Sample.table, Ok Sample.root)
  /\ (exists lookup' outcome,
        secure_the_bag Sample.tree_hash Sample.int_to_bytes 5
          [Sample.A; Sample.B; Sample.C] 2 Sample.clash_table
        = Some (lookup', outcome)
        /\ Ok Sample.root = outcome).
Proof.
  assert (secure_the_bag Sample.tree_hash Sample.int_to_bytes 3
            [Sample.A; Sample.B; Sample.C] 2 ∅ = Some (Sample.table, Ok Sample.root))
    as Hfirst by (vm_compute; reflexivity).
  assert (exists lookup' outcome,
            secure_the_bag Sample.tree_hash Sample.int_to_bytes 5
              [Sample.A; Sample.B; Sample.C] 2 Sample.clash_table
            = Some (lookup', outcome))
    as (lookup' & outcome & Hsecond) by (vm_compute; eexists; eexists; reflexivity).
  split; [exact Hfirst|]. exists lookup', outcome. split; [exact Hsecond|].
  exact (secure_the_bag_root_deterministic Sample.tree_hash Sample.int_to_bytes 3 5
           [Sample.A; Sample.B; Sample.C] 2 ∅ Sample.clash_table Sample.table lookup'
           (Ok Sample.root) outcome Hfirst Hsecond).
Defined.

Lemma parent_of_puzzle_hash_identity_witness :
  secure_the_bag Sample32.tree_hash Sample.int_to_bytes 3
    [Sample32.A; Sample32.B; Sample32.C] 2 ∅ = Some (Sample32.table, Ok Sample32.root)
  /\ (forall batch t,
        In batch (all_batches Sample32.tree_hash Sample.int_to_bytes 3
                    [Sample32.A; Sample32.B; Sample32.C] 2) ->
        In t batch ->
        (Sample32.rank (Target.puzzle_hash t)
         < Sample32.rank
             (Sample32.tree_hash (batch_puzzle Sample.int_to_bytes batch)))%nat)
  /\ match Sample32.table !! hex (Target.puzzle_hash Sample32.A) with
     | None =>
         forall n,
           parent_of_puzzle_hash Sample32.std_hash Sample.int_to_bytes (S n)
             Sample32.genesis (Target.puzzle_hash Sample32.A) Sample32.table
           = Some (None, Sample32.genesis)
     | Some parent =>
         exists n parent_spend parent_identity,
           parent_of_puzzle_hash Sample32.std_hash Sample.int_to_bytes n
             Sample32.genesis (TargetCoin.puzzle_hash parent) Sample32.table
           = Some (parent_spend, parent_identity)
           /\ (Sample32.table !! hex (TargetCoin.puzzle_hash parent) = None ->
               parent_identity = Sample32.genesis)
           /\ (exists batch,
                 In batch (all_batches Sample32.tree_hash Sample.int_to_bytes 3
                             [Sample32.A; Sample32.B; Sample32.C] 2)
                 /\ TargetCoin.amount parent = sum_amounts batch)
           /\ let amount :=
                if decide (parent_identity = Sample32.genesis)
                then 0 else TargetCoin.amount parent in
              forall m, (n < m)%nat ->
                parent_of_puzzle_hash Sample32.std_hash Sample.int_to_bytes m
                  Sample32.genesis (Target.puzzle_hash Sample32.A) Sample32.table
                = Some (Some (CoinSpend.mk
                                (Coin.mk parent_identity (TargetCoin.puzzle_hash parent)
                                   amount)
                                (TargetCoin.puzzle parent)
                                (Program_to Sample.int_to_bytes (PyList []))),
                        Sample32.std_hash
                          (parent_identity ++ TargetCoin.puzzle_hash parent
                           ++ Sample.int_to_bytes amount))
     end.
Proof.
  split; [exact sample32_built|]. split; [exact sample32_levels|].
  exact (parent_of_puzzle_hash_identity Sample32.std_hash Sample32.tree_hash
           Sample.int_to_bytes Sample32.rank 3
           [Sample32.A; Sample32.B; Sample32.C] 2 Sample32.table Sample32.root
           Sample32.genesis (Target.puzzle_hash Sample32.A)
           sample32_built sample32_levels).
Defined.


Lemma unwind_the_bag_root_first_witness :
  unwind_the_bag Sample.std_hash Sample.int_to_bytes 3 3 Sample.empty_ledger
    (Target.puzzle_hash Sample.A) Sample.genesis Sample.table
  = Some (rev Sample.walked)
  /\ (exists walked,
        get_unwind Sample.std_hash Sample.int_to_bytes 3 3 Sample.empty_ledger
          Sample.genesis Sample.table (Target.puzzle_hash Sample.A) = Some walked
        /\ rev Sample.walked = rev walked)
  /\ (forall before parent child after,
        rev Sample.walked = before ++ parent :: child :: after ->
        Coin.parent_coin_info (CoinSpend.coin child)
        = Coin_name Sample.std_hash Sample.int_to_bytes (CoinSpend.coin parent))
  /\ (forall before last,
        rev Sample.walked = before ++ [last] ->
        exists entry,
          Sample.table !! hex (Target.puzzle_hash Sample.A) = Some entry
          /\ Coin.puzzle_hash (CoinSpend.coin last) = TargetCoin.puzzle_hash entry
          /\ CoinSpend.puzzle_reveal last = TargetCoin.puzzle entry).
Proof.
  assert (unwind_the_bag Sample.std_hash Sample.int_to_bytes 3 3 Sample.empty_ledger
            (Target.puzzle_hash Sample.A) Sample.genesis Sample.table
          = Some (rev Sample.walked)) as Hrun by (vm_compute; reflexivity).
  split; [exact Hrun|].
  exact (unwind_the_bag_root_first Sample.std_hash Sample.int_to_bytes
           Sample.empty_ledger Sample.genesis Sample.table 3 3
           (Target.puzzle_hash Sample.A) (rev Sample.walked) Hrun).
Defined.

Lemma default_lookup_is_shared_witness :
  call_secure_the_bag Sample.tree_hash Sample.int_to_bytes 2
    [Sample.A; Sample.B] 2 None initial_store
  = Some (Sample.store_1, Sample.outcome_1)
  /\ call_secure_the_bag Sample.tree_hash Sample.int_to_bytes 2
       [Sample.A; Sample.C] 2 None Sample.store_1
     = Some (SampleCalls.store_2, Ok (SampleCalls.root_2, DEFAULT_LOOKUP))
  /\ DEFAULT_LOOKUP = DEFAULT_LOOKUP
  /\ exists first second,
       secure_the_bag Sample.tree_hash Sample.int_to_bytes 2 [Sample.A; Sample.B] 2 ∅
       = Some (first, match Sample.outcome_1 with
                      | Ok (root1, _) => Ok root1
                      | Raise e => Raise e
                      end)
       /\ Sample.store_1 !! DEFAULT_LOOKUP = Some first
       /\ SampleCalls.store_2 !! DEFAULT_LOOKUP = Some second
       /\ second
          = recorded Sample.tree_hash Sample.int_to_bytes
              (all_batches Sample.tree_hash Sample.int_to_bytes 2
                 [Sample.A; Sample.C] 2)
              first
       /\ (forall key,
             (forall batch t,
                In batch (all_batches Sample.tree_hash Sample.int_to_bytes 2
                            [Sample.A; Sample.C] 2) ->
                In t batch -> key <> hex (Target.puzzle_hash t)) ->
             second !! key = first !! key)
       /\ (forall earlier later before after t,
             all_batches Sample.tree_hash Sample.int_to_bytes 2 [Sample.A; Sample.C] 2
             = earlier ++ (before ++ t :: after) :: later ->
             (forall t', In t' after ->
                Target.puzzle_hash t' <> Target.puzzle_hash t) ->
             (forall batch' t', In batch' later -> In t' batch' ->
                Target.puzzle_hash t' <> Target.puzzle_hash t) ->
             second !! hex (Target.puzzle_hash t)
             = Some (TargetCoin.mk t
                       (batch_puzzle Sample.int_to_bytes (before ++ t :: after))
                       (Sample.tree_hash
                          (batch_puzzle Sample.int_to_bytes (before ++ t :: after)))
                       (sum_amounts (before ++ t :: after))))
       /\ (forall key, is_Some (first !! key) -> is_Some (second !! key))
       /\ (forall fresh outcome key,
             secure_the_bag Sample.tree_hash Sample.int_to_bytes 2
               [Sample.A; Sample.C] 2 ∅ = Some (fresh, outcome) ->
             is_Some (first !! key) -> fresh !! key = None ->
             second <> fresh).
Proof.
  assert (call_secure_the_bag Sample.tree_hash Sample.int_to_bytes 2
            [Sample.A; Sample.B] 2 None initial_store
          = Some (Sample.store_1, Sample.outcome_1)) as Hcall1
    by (vm_compute; reflexivity).
  assert (call_secure_the_bag Sample.tree_hash Sample.int_to_bytes 2
            [Sample.A; Sample.C] 2 None Sample.store_1
          = Some (SampleCalls.store_2, Ok (SampleCalls.root_2, DEFAULT_LOOKUP)))
    as Hcall2 by (vm_compute; reflexivity).
  split; [exact Hcall1|]. split; [exact Hcall2|].
  exact (default_lookup_is_shared Sample.tree_hash Sample.int_to_bytes 2 2
           [Sample.A; Sample.B] [Sample.A; Sample.C] 2 2 Sample.store_1
           SampleCalls.store_2 Sample.outcome_1 SampleCalls.root_2 DEFAULT_LOOKUP
           Hcall1 Hcall2).
Defined.

(** C10 as stated fails: the first call, on [[A; B]], binds the key of [A] to
    the parent of the batch [[A; B]]; the second call, on [[A; C]], binds the
    same key to the parent of the batch [[A; C]].  Both calls return a root,
    and the table the second call returns no longer holds the entry the first
    call inserted under that key; the key of [B], which the second call does
    not write, keeps its entry. *)
Lemma default_lookup_overwrite_counterexample :
  call_secure_the_bag Sample.tree_hash Sample.int_to_bytes 2
    [Sample.A; Sample.B] 2 None initial_store
  = Some (Sample.store_1,
          Ok (Sample.tree_hash Sample.first_batch_puzzle, DEFAULT_LOOKUP))
  /\ call_secure_the_bag Sample.tree_hash Sample.int_to_bytes 2
       [Sample.A; Sample.C] 2 None Sample.store_1
     = Some (SampleCalls.store_2,
             Ok (Sample.tree_hash SampleCalls.second_call_puzzle, DEFAULT_LOOKUP))
  /\ [Sample.A; Sample.B] <> [Sample.A; Sample.C]
  /\ exists first second,
       Sample.store_1 !! DEFAULT_LOOKUP = Some first
       /\ SampleCalls.store_2 !! DEFAULT_LOOKUP = Some second
       /\ first !! hex (Target.puzzle_hash Sample.A)
          = Some (TargetCoin_init Sample.tree_hash Sample.A
                    Sample.first_batch_puzzle 42)
       /\ second !! hex (Target.puzzle_hash Sample.A)
          = Some (TargetCoin_init Sample.tree_hash Sample.A
                    SampleCalls.second_call_puzzle 20)
       /\ second !! hex (Target.puzzle_hash Sample.A)
          <> first !! hex (Target.puzzle_hash Sample.A)
       /\ second !! hex (Target.puzzle_hash Sample.B)
          = first !! hex (Target.puzzle_hash Sample.B).
Proof.
  split; [vm_compute; reflexivity|]. split; [vm_compute; reflexivity|].
  split; [discriminate|].
  assert (exists first, Sample.store_1 !! DEFAULT_LOOKUP = Some first)
    as [first Hfirst] by (vm_compute; eexists; reflexivity).
  assert (exists second, SampleCalls.store_2 !! DEFAULT_LOOKUP = Some second)
    as [second Hsecond] by (vm_compute; eexists; reflexivity).
  exists first, second. split; [exact Hfirst|]. split; [exact Hsecond|].
  vm_compute in Hfirst, Hsecond.
  injection Hfirst as <-. injection Hsecond as <-.
  repeat split; try (vm_compute; reflexivity).
  vm_compute. discriminate.
Qed.

(** ** Waiting for the ledger *)

(** X1: one call of [unspent_coin_exists] asks the node once and answers by
    the state of the coin at that moment (the spent block index of a record
    is a block height, never negative): [False] for a coin the node does not
    know, [True] for an unspent coin, and the exception "has already been
    spent" for a spent one. *)
Theorem unspent_coin_exists_state
    (full_node_client : nat -> list byte -> option CoinRecord.t)
    (requests : nat) (coin_name : list byte) :
  (forall coin_record,
     full_node_client requests coin_name = Some coin_record ->
     0 <= CoinRecord.spent_block_index coin_record) ->
  unspent_coin_exists full_node_client requests coin_name
  = (match coin_state (full_node_client requests) coin_name with
     | unknown => Returned false
     | unspent => Returned true
     | spent => Raised (AlreadySpent coin_name)
     end, S requests).
Proof.
  intros Hindex. unfold unspent_coin_exists, coin_state.
  destruct (full_node_client requests coin_name) as [coin_record|]; [|reflexivity].
  specialize (Hindex coin_record eq_refl).
  destruct (0 <? CoinRecord.spent_block_index coin_record) eqn:Hpos;
    destruct (CoinRecord.spent_block_index coin_record =? 0) eqn:Hzero;
    try reflexivity; lia.
Qed.

Lemma wait_for_unspent_coin_sound (fuel : nat) :
  forall (client : nat -> list byte -> option CoinRecord.t) (requests : nat)
         (coin_name : list byte) outcome requests',
    wait_for_unspent_coin fuel client requests coin_name = Some (outcome, requests') ->
    exists k coin_record,
      requests' = S (requests + k)
      /\ (forall j, (j < k)%nat -> client (requests + j)%nat coin_name = None)
      /\ client (requests + k)%nat coin_name = Some coin_record
      /\ outcome = if 0 <? CoinRecord.spent_block_index coin_record
                   then Raised (AlreadySpent coin_name) else Returned tt.
Proof.
  induction fuel as [|fuel IH]; intros client requests coin_name outcome requests' Hrun;
    [discriminate|].
  simpl in Hrun. unfold unspent_coin_exists in Hrun.
  destruct (client requests coin_name) as [coin_record|] eqn:Hanswer.
  - exists 0%nat, coin_record. rewrite Nat.add_0_r.
    destruct (0 <? CoinRecord.spent_block_index coin_record);
      inversion Hrun; subst; (split; [reflexivity|]); (split; [intros j Hj; lia|]); auto.
  - destruct (IH _ _ _ _ _ Hrun) as (k & coin_record & -> & Hnone & Hsome & ->).
    exists (S k), coin_record. split; [lia|]. split; [|split].
    + intros [|j] Hj.
      * rewrite Nat.add_0_r. exact Hanswer.
      * replace (requests + S j)%nat with (S requests + j)%nat by lia.
        apply Hnone. lia.
    + replace (requests + S k)%nat with (S requests + k)%nat by lia. exact Hsome.
    + reflexivity.
Qed.

Lemma wait_for_unspent_coin_complete
    (client : nat -> list byte -> option CoinRecord.t) (coin_name : list byte)
    (k : nat) :
  forall (requests : nat) coin_record,
    (forall j, (j < k)%nat -> client (requests + j)%nat coin_name = None) ->
    client (requests + k)%nat coin_name = Some coin_record ->
    wait_for_unspent_coin (S k) client requests coin_name
    = Some (if 0 <? CoinRecord.spent_block_index coin_record
            then Raised (AlreadySpent coin_name) else Returned tt,
            S (requests + k)).
Proof.
  induction k as [|k IH]; intros requests coin_record Hnone Hsome.
  - rewrite Nat.add_0_r in *. simpl. unfold unspent_coin_exists. rewrite Hsome.
    destruct (0 <? CoinRecord.spent_block_index coin_record); reflexivity.
  - change (wait_for_unspent_coin (S (S k)) client requests coin_name)
      with (match unspent_coin_exists client requests coin_name with
            | (Raised e, requests0) => Some (Raised e, requests0)
            | (Returned true, requests0) => Some (Returned tt, requests0)
            | (Returned false, requests0) =>
                wait_for_unspent_coin (S k) client requests0 coin_name
            end).
    unfold unspent_coin_exists.
    pose proof (Hnone 0%nat ltac:(lia)) as H0. rewrite Nat.add_0_r in H0. rewrite H0.
    rewrite (IH (S requests) coin_record).
    + replace (S (S requests + k)) with (S (requests + S k)) by lia. reflexivity.
    + intros j Hj. replace (S requests + j)%nat with (requests + S j)%nat by lia.
      apply Hnone. lia.
    + replace (S requests + k)%nat with (requests + S k)%nat by lia. exact Hsome.
Qed.

(** X2: [wait_for_unspent_coin] returns exactly when the node comes to know
    the coin: it polls as long as the answer is [None], stops at the first
    record it gets, having asked once per round, and at that record returns
    if the coin is unspent and raises "has already been spent" if it is
    spent.  If the node never knows the coin it never returns. *)
Theorem wait_for_unspent_coin_first_answer
    (full_node_client : nat -> list byte -> option CoinRecord.t)
    (requests : nat) (coin_name : list byte)
    (outcome : completion unwind_exception unit) (requests' : nat) :
  (exists fuel,
     wait_for_unspent_coin fuel full_node_client requests coin_name
     = Some (outcome, requests'))
  <-> exists k coin_record,
        requests' = S (requests + k)
        /\ (forall j, (j < k)%nat ->
              full_node_client (requests + j)%nat coin_name = None)
        /\ full_node_client (requests + k)%nat coin_name = Some coin_record
        /\ outcome = if 0 <? CoinRecord.spent_block_index coin_record
                     then Raised (AlreadySpent coin_name) else Returned tt.
Proof.
  split.
  - intros [fuel Hrun]. eapply wait_for_unspent_coin_sound. exact Hrun.
  - intros (k & coin_record & -> & Hnone & Hsome & ->).
    exists (S k). apply wait_for_unspent_coin_complete; assumption.
Qed.

Lemma wait_for_coin_spend_sound (fuel : nat) :
  forall (client : nat -> list byte -> option CoinRecord.t) (requests : nat)
         (coin_name : list byte) done requests',
    wait_for_coin_spend fuel client requests coin_name = Some (done, requests') ->
    exists k coin_record,
      requests' = S (requests + k)
      /\ (forall j coin_record',
            (j < k)%nat ->
            client (requests + j)%nat coin_name = Some coin_record' ->
            CoinRecord.spent_block_index coin_record' <= 0)
      /\ client (requests + k)%nat coin_name = Some coin_record
      /\ 0 < CoinRecord.spent_block_index coin_record.
Proof.
  induction fuel as [|fuel IH]; intros client requests coin_name done requests' Hrun;
    [discriminate|].
  simpl in Hrun.
  assert ((forall coin_record0,
             client requests coin_name = Some coin_record0 ->
             CoinRecord.spent_block_index coin_record0 <= 0) ->
          wait_for_coin_spend fuel client (S requests) coin_name
          = Some (done, requests') ->
          exists k coin_record,
            requests' = S (requests + k)
            /\ (forall j coin_record',
                  (j < k)%nat ->
                  client (requests + j)%nat coin_name = Some coin_record' ->
                  CoinRecord.spent_block_index coin_record' <= 0)
            /\ client (requests + k)%nat coin_name = Some coin_record
            /\ 0 < CoinRecord.spent_block_index coin_record) as Hnext.
  { intros Hnot Hrest.
    destruct (IH _ _ _ _ _ Hrest) as (k & coin_record & -> & Hbefore & Hsome & Hspent).
    exists (S k), coin_record. split; [lia|]. split; [|split].
    - intros [|j] coin_record' Hj Hj'.
      + rewrite Nat.add_0_r in Hj'. apply Hnot. exact Hj'.
      + replace (requests + S j)%nat with (S requests + j)%nat in Hj' by lia.
        eapply Hbefore; [|exact Hj']. lia.
    - replace (requests + S k)%nat with (S requests + k)%nat by lia. exact Hsome.
    - exact Hspent. }
  destruct (client requests coin_name) as [coin_record|] eqn:Hanswer.
  - destruct (0 <? CoinRecord.spent_block_index coin_record) eqn:Hpos.
    + inversion Hrun; subst. exists 0%nat, coin_record. rewrite Nat.add_0_r.
      split; [reflexivity|]. split; [intros j c Hj; lia|]. split; [exact Hanswer|lia].
    + apply Hnext; [|exact Hrun]. intros c H. inversion H; subst. lia.
  - apply Hnext; [|exact Hrun]. intros c H. discriminate.
Qed.

Lemma wait_for_coin_spend_complete
    (client : nat -> list byte -> option CoinRecord.t) (coin_name : list byte)
    (k : nat) :
  forall (requests : nat) coin_record,
    (forall j coin_record',
       (j < k)%nat ->
       client (requests + j)%nat coin_name = Some coin_record' ->
       CoinRecord.spent_block_index coin_record' <= 0) ->
    client (requests + k)%nat coin_name = Some coin_record ->
    0 < CoinRecord.spent_block_index coin_record ->
    wait_for_coin_spend (S k) client requests coin_name = Some (tt, S (requests + k)).
Proof.
  induction k as [|k IH]; intros requests coin_record Hbefore Hsome Hspent.
  - rewrite Nat.add_0_r in *. simpl. rewrite Hsome.
    apply Z.ltb_lt in Hspent. rewrite Hspent. reflexivity.
  - assert (wait_for_coin_spend (S k) client (S requests) coin_name
            = Some (tt, S (requests + S k))) as Hrest.
    { rewrite (IH (S requests) coin_record).
      - replace (S (S requests + k)) with (S (requests + S k)) by lia. reflexivity.
      - intros j c Hj Hc.
        replace (S requests + j)%nat with (requests + S j)%nat in Hc by lia.
        eapply Hbefore; [|exact Hc]. lia.
      - replace (S requests + k)%nat with (requests + S k)%nat by lia. exact Hsome.
      - exact Hspent. }
    change (wait_for_coin_spend (S (S k)) client requests coin_name)
      with (match client requests coin_name with
            | None => wait_for_coin_spend (S k) client (S requests) coin_name
            | Some coin_record0 =>
                if 0 <? CoinRecord.spent_block_index coin_record0
                then Some (tt, S requests)
                else wait_for_coin_spend (S k) client (S requests) coin_name
            end).
    destruct (client requests coin_name) as [c|] eqn:Hanswer; [|exact Hrest].
    assert (CoinRecord.spent_block_index c <= 0) as Hle.
    { apply (Hbefore 0%nat c); [lia|]. rewrite Nat.add_0_r. exact Hanswer. }
    apply Z.ltb_ge in Hle. rewrite Hle. exact Hrest.
Qed.

(** X3: [wait_for_coin_spend] returns exactly at the first answer that shows
    the coin spent (spent block index above 0), after one request per round;
    answers [None] and answers of an unspent coin make it poll again, it
    raises nothing, and it never returns if no answer shows the coin
    spent. *)
Theorem wait_for_coin_spend_first_spent
    (full_node_client : nat -> list byte -> option CoinRecord.t)
    (requests : nat) (coin_name : list byte) (requests' : nat) :
  (exists fuel,
     wait_for_coin_spend fuel full_node_client requests coin_name
     = Some (tt, requests'))
  <-> exists k coin_record,
        requests' = S (requests + k)
        /\ (forall j coin_record',
              (j < k)%nat ->
              full_node_client (requests + j)%nat coin_name = Some coin_record' ->
              CoinRecord.spent_block_index coin_record' <= 0)
        /\ full_node_client (requests + k)%nat coin_name = Some coin_record
        /\ 0 < CoinRecord.spent_block_index coin_record.
Proof.
  split.
  - intros [fuel Hrun]. eapply wait_for_coin_spend_sound. exact Hrun.
  - intros (k & coin_record & -> & Hbefore & Hsome & Hspent).
    exists (S k). eapply wait_for_coin_spend_complete; eassumption.
Qed.

(** ** [read_metadata_csv] *)

Lemma cells_named_nil (row : list string) (header : string) :
  cells_named [] row header = [].
Proof. reflexivity. Qed.

Lemma cells_named_cons (h : string) (header_row : list string) (cell : string)
    (row : list string) (header : string) :
  cells_named (h :: header_row) (cell :: row) header
  = if decide (h = header) then cell :: cells_named header_row row header
    else cells_named header_row row header.
Proof.
  unfold cells_named. simpl. rewrite filter_cons. simpl.
  destruct (decide (h = header)); reflexivity.
Qed.

Lemma target_not_list_header : "target"%string ∉ list_headers.
Proof.
  unfold list_headers. intros H.
  repeat (apply elem_of_cons in H; destruct H as [H|H]; [discriminate|]).
  inversion H.
Qed.

Lemma empty_meta_dict_lookup (header : string) :
  empty_meta_dict !! header
  = if decide (header ∈ list_headers) then Some (MetaList []) else None.
Proof.
  unfold empty_meta_dict, list_headers. simpl.
  destruct (decide (header = "license_uris"%string)) as [->|H1].
  { rewrite lookup_insert_eq. rewrite decide_True by set_solver. reflexivity. }
  rewrite lookup_insert_ne by congruence.
  destruct (decide (header = "meta_uris"%string)) as [->|H2].
  { rewrite lookup_insert_eq. rewrite decide_True by set_solver. reflexivity. }
  rewrite lookup_insert_ne by congruence.
  destruct (decide (header = "uris"%string)) as [->|H3].
  { rewrite lookup_insert_eq. rewrite decide_True by set_solver. reflexivity. }
  rewrite lookup_insert_ne by congruence.
  rewrite lookup_empty. rewrite decide_False; [reflexivity|].
  intros Hin. repeat (apply elem_of_cons in Hin; destruct Hin as [->|Hin]; [congruence|]).
  inversion Hin.
Qed.

Lemma empty_meta_dict_bound : list_headers_bound empty_meta_dict.
Proof.
  intros header Hin. exists []. rewrite empty_meta_dict_lookup.
  rewrite decide_True by exact Hin. reflexivity.
Qed.

Lemma fill_meta_dict_short (header_row : list string) :
  forall (i : nat) (row : list string) (meta_dict : gmap string MetaValue)
         (targets : list string),
    list_headers_bound meta_dict ->
    (i <= length row < length header_row + i)%nat ->
    fill_meta_dict header_row i row meta_dict targets = Raised IndexError.
Proof.
  induction header_row as [|header rest IH]; intros i row meta_dict targets Hbound Hlen.
  - simpl in Hlen. lia.
  - simpl. simpl in Hlen.
    destruct (row !! i) as [cell|] eqn:Hcell.
    + assert (S i <= length row < length rest + S i)%nat as Hlen'.
      { apply lookup_lt_Some in Hcell. lia. }
      destruct (decide (header ∈ list_headers)) as [Hin|Hnin].
      * destruct (Hbound header Hin) as [items ->].
        apply IH; [|exact Hlen'].
        intros h Hh. destruct (decide (h = header)) as [->|Hne].
        { rewrite lookup_insert_eq. eauto. }
        rewrite lookup_insert_ne by congruence. apply Hbound. exact Hh.
      * destruct (decide (header = "target"%string)).
        { apply IH; assumption. }
        apply IH; [|exact Hlen'].
        intros h Hh. rewrite lookup_insert_ne by (intros ->; contradiction).
        apply Hbound. exact Hh.
    + destruct (decide (header ∈ list_headers)) as [Hin|Hnin].
      * destruct (Hbound header Hin) as [items ->]. reflexivity.
      * destruct (decide (header = "target"%string)); reflexivity.
Qed.

Lemma fill_meta_dict_long (header_row : list string) :
  forall (i : nat) (row : list string) (meta_dict : gmap string MetaValue)
         (targets : list string),
    list_headers_bound meta_dict ->
    (length header_row + i <= length row)%nat ->
    exists meta_dict',
      fill_meta_dict header_row i row meta_dict targets
      = Returned (meta_dict',
                  targets ++ cells_named header_row (drop i row) "target")
      /\ list_headers_bound meta_dict'
      /\ forall header,
           meta_dict' !! header
           = merged_value (meta_dict !! header)
               (cells_named header_row (drop i row) header) header.
Proof.
  induction header_row as [|h rest IH]; intros i row meta_dict targets Hbound Hlen.
  - exists meta_dict. simpl. rewrite app_nil_r. split; [reflexivity|].
    split; [exact Hbound|]. intros header. unfold merged_value.
    rewrite cells_named_nil. simpl.
    destruct (decide (header ∈ list_headers)).
    + destruct (meta_dict !! header) as [[items|cell]|]; rewrite ?app_nil_r; reflexivity.
    + destruct (decide (header = "target"%string)); reflexivity.
  - simpl in Hlen.
    assert (exists cell, row !! i = Some cell) as [cell Hcell].
    { apply lookup_lt_is_Some. lia. }
    assert (drop i row = cell :: drop (S i) row) as Hdrop.
    { apply drop_S. exact Hcell. }
    assert (length rest + S i <= length row)%nat as Hlen' by lia.
    simpl. rewrite Hcell, Hdrop.
    destruct (decide (h ∈ list_headers)) as [Hin|Hnin].
    + destruct (Hbound h Hin) as [items Hitems]. rewrite Hitems.
      destruct (IH (S i) row (<[h := MetaList (items ++ [cell])]> meta_dict) targets)
        as (meta_dict' & Hrun & Hbound' & Hvalues); [|exact Hlen'|].
      { intros h' Hh'. destruct (decide (h' = h)) as [->|Hne].
        - rewrite lookup_insert_eq. eauto.
        - rewrite lookup_insert_ne by congruence. apply Hbound. exact Hh'. }
      exists meta_dict'. rewrite Hrun. split.
      { rewrite cells_named_cons. rewrite decide_False; [reflexivity|].
        intros ->. exact (target_not_list_header Hin). }
      split; [exact Hbound'|]. intros header. rewrite Hvalues.
      rewrite cells_named_cons. destruct (decide (h = header)) as [->|Hne].
      * rewrite lookup_insert_eq, Hitems. unfold merged_value.
        rewrite !decide_True by exact Hin. rewrite <- app_assoc. reflexivity.
      * rewrite lookup_insert_ne by exact Hne. reflexivity.
    + destruct (decide (h = "target"%string)) as [->|Hnt].
      * destruct (IH (S i) row meta_dict (targets ++ [cell]))
          as (meta_dict' & Hrun & Hbound' & Hvalues); [exact Hbound|exact Hlen'|].
        exists meta_dict'. rewrite Hrun. split.
        { rewrite cells_named_cons. rewrite decide_True by reflexivity.
          rewrite <- app_assoc. reflexivity. }
        split; [exact Hbound'|]. intros header. rewrite Hvalues.
        rewrite cells_named_cons. destruct (decide ("target"%string = header)) as [<-|Hne];
          [|reflexivity].
        unfold merged_value. rewrite decide_False by exact Hnin.
        rewrite decide_True by reflexivity. reflexivity.
      * destruct (IH (S i) row (<[h := MetaText cell]> meta_dict) targets)
          as (meta_dict' & Hrun & Hbound' & Hvalues); [|exact Hlen'|].
        { intros h' Hh'. rewrite lookup_insert_ne by (intros ->; contradiction).
          apply Hbound. exact Hh'. }
        exists meta_dict'. rewrite Hrun. split.
        { rewrite cells_named_cons. rewrite decide_False by exact Hnt. reflexivity. }
        split; [exact Hbound'|]. intros header. rewrite Hvalues.
        rewrite cells_named_cons. destruct (decide (h = header)) as [->|Hne].
        { rewrite lookup_insert_eq. unfold merged_value.
          rewrite !decide_False by assumption.
          rewrite (last_cons cell (cells_named rest (drop (S i) row) header)).
          destruct (last (cells_named rest (drop (S i) row) header)); reflexivity. }
        rewrite lookup_insert_ne by exact Hne. reflexivity.
Qed.

Lemma fill_meta_dict_row (header_row row : list string) (targets : list string) :
  (length header_row <= length row)%nat ->
  exists meta_dict,
    fill_meta_dict header_row 0 row empty_meta_dict targets
    = Returned (meta_dict, targets ++ cells_named header_row row "target")
    /\ list_headers_bound meta_dict
    /\ forall header, meta_dict !! header = expected_value header_row row header.
Proof.
  intros Hlen.
  destruct (fill_meta_dict_long header_row 0 row empty_meta_dict targets
              empty_meta_dict_bound) as (meta_dict & Hrun & Hbound & Hvalues); [lia|].
  rewrite drop_0 in *. exists meta_dict. split; [exact Hrun|]. split; [exact Hbound|].
  intros header. rewrite Hvalues, empty_meta_dict_lookup.
  unfold merged_value, expected_value.
  destruct (decide (header ∈ list_headers)); [reflexivity|].
  destruct (decide (header = "target"%string)); [reflexivity|].
  destruct (last (cells_named header_row row header)); reflexivity.
Qed.

Lemma read_rows_spec (header_row : list string) (rows : list (list string)) :
  forall (metadata_list : list (gmap string MetaValue)) (targets : list string),
    (Forall (fun row => (length header_row <= length row)%nat) rows ->
     exists read,
       read_rows header_row rows metadata_list targets
       = Returned (metadata_list ++ read,
                   targets ++ concat (map (fun row => cells_named header_row row "target")
                                        rows))
       /\ Forall2 (fun row meta_dict =>
                     list_headers_bound meta_dict
                     /\ forall header,
                          meta_dict !! header = expected_value header_row row header)
            rows read)
    /\ (~ Forall (fun row => (length header_row <= length row)%nat) rows ->
        read_rows header_row rows metadata_list targets = Raised IndexError).
Proof.
  induction rows as [|row rows IH]; intros metadata_list targets.
  - split.
    + intros _. exists []. simpl. rewrite !app_nil_r. split; [reflexivity|constructor].
    + intros Hnot. exfalso. apply Hnot. constructor.
  - simpl. destruct (le_lt_dec (length header_row) (length row)) as [Hle|Hlt].
    + destruct (fill_meta_dict_row header_row row targets Hle)
        as (meta_dict & Hrun & Hbound & Hvalues).
      rewrite Hrun.
      destruct (IH (metadata_list ++ [meta_dict])
                  (targets ++ cells_named header_row row "target")) as [Hok Hbad].
      split.
      * intros Hall. inversion Hall as [|? ? _ Hrest]; subst.
        destruct (Hok Hrest) as (read & Hread & Hforall).
        exists (meta_dict :: read). rewrite Hread, <- !app_assoc. simpl.
        split; [reflexivity|]. constructor; [split; assumption|exact Hforall].
      * intros Hnot. apply Hbad. intros Hrest. apply Hnot. constructor; assumption.
    + rewrite (fill_meta_dict_short header_row 0 row empty_meta_dict targets
                 empty_meta_dict_bound) by lia.
      split.
      * intros Hall. inversion Hall; subst. lia.
      * reflexivity.
Qed.

(** X4: [read_metadata_csv] returns exactly when there is a header row (the
    first row of the file with [has_header], the default one, with "target"
    appended under [has_targets], otherwise) and every data row has at least
    as many cells as the header row; longer rows are accepted. *)
Theorem read_metadata_csv_returns (bulk_data : list (list string))
    (has_header has_targets : bool) :
  (exists read, read_metadata_csv bulk_data has_header has_targets = Returned read)
  <-> exists header_row rows,
        header_and_rows bulk_data has_header has_targets = Some (header_row, rows)
        /\ Forall (fun row => (length header_row <= length row)%nat) rows.
Proof.
  unfold read_metadata_csv, header_and_rows.
  assert (forall header_row rows,
            (exists read, read_rows header_row rows [] [] = Returned read)
            <-> Forall (fun row => (length header_row <= length row)%nat) rows) as Hrows.
  { intros header_row rows. destruct (read_rows_spec header_row rows [] []) as [Hok Hbad].
    split.
    - intros [read Hread].
      destruct (decide (Forall (fun row => (length header_row <= length row)%nat) rows))
        as [Hall|Hnot]; [exact Hall|].
      rewrite (Hbad Hnot) in Hread. discriminate.
    - intros Hall. destruct (Hok Hall) as (read & Hread & _). eauto. }
  destruct has_header.
  - destruct bulk_data as [|header_row rows].
    + split; [intros [read H]; discriminate|intros (h & r & H & _); discriminate].
    + rewrite Hrows. split.
      * intros Hall. exists header_row, rows. auto.
      * intros (h & r & H & Hall). inversion H; subst. exact Hall.
  - rewrite Hrows. split.
    + intros Hall. eexists _, _. split; [reflexivity|exact Hall].
    + intros (h & r & H & Hall). inversion H; subst. exact Hall.
Qed.

(** X5: the only exception [read_metadata_csv] raises on the rows of a file
    is [IndexError] (never [KeyError] or [AttributeError] from the list
    headers), and it raises it only for an empty file read with
    [has_header] or for a data row shorter than the header row. *)
Theorem read_metadata_csv_raises_index_error (bulk_data : list (list string))
    (has_header has_targets : bool) (e : csv_exception) :
  read_metadata_csv bulk_data has_header has_targets = Raised e ->
  e = IndexError
  /\ (has_header = true /\ bulk_data = []
      \/ exists header_row rows row,
           header_and_rows bulk_data has_header has_targets = Some (header_row, rows)
           /\ In row rows /\ (length row < length header_row)%nat).
Proof.
  unfold read_metadata_csv, header_and_rows.
  assert (forall header_row rows,
            read_rows header_row rows [] [] = Raised e ->
            e = IndexError
            /\ exists row, In row rows /\ (length row < length header_row)%nat) as Hrows.
  { intros header_row rows Hraise.
    destruct (read_rows_spec header_row rows [] []) as [Hok Hbad].
    destruct (decide (Forall (fun row => (length header_row <= length row)%nat) rows))
      as [Hall|Hnot].
    - destruct (Hok Hall) as (read & Hread & _). rewrite Hread in Hraise. discriminate.
    - rewrite (Hbad Hnot) in Hraise. inversion Hraise; subst. split; [reflexivity|].
      apply List.neg_Forall_Exists_neg in Hnot;
        [|intros row; apply le_dec].
      apply List.Exists_exists in Hnot. destruct Hnot as (row & Hin & Hlen).
      exists row. split; [exact Hin|lia]. }
  destruct has_header.
  - destruct bulk_data as [|header_row rows].
    + intros H. inversion H; subst. split; [reflexivity|]. left. auto.
    + intros H. destruct (Hrows _ _ H) as (-> & row & Hin & Hlen).
      split; [reflexivity|]. right. exists header_row, rows, row. auto.
  - intros H. destruct (Hrows _ _ H) as (-> & row & Hin & Hlen).
    split; [reflexivity|]. right. eexists _, _, row. split; [reflexivity|]. auto.
Qed.

(** X6: what [read_metadata_csv] returns: one dictionary per data row, in
    order; under a list header ("uris", "meta_uris", "license_uris") the list
    of the row's cells in the columns of that name (empty when there is no
    such column), under "target" nothing, under any other header the cell of
    the last column of that name (no key when there is none); and the
    targets are the cells of the "target" columns, row after row. *)
Theorem read_metadata_csv_contents (bulk_data : list (list string))
    (has_header has_targets : bool)
    (metadata_list : list (gmap string MetaValue)) (targets : list string) :
  read_metadata_csv bulk_data has_header has_targets = Returned (metadata_list, targets) ->
  exists header_row rows,
    header_and_rows bulk_data has_header has_targets = Some (header_row, rows)
    /\ Forall2 (fun row meta_dict =>
                  forall header,
                    meta_dict !! header = expected_value header_row row header)
         rows metadata_list
    /\ targets = concat (map (fun row => cells_named header_row row "target") rows).
Proof.
  unfold read_metadata_csv, header_and_rows.
  assert (forall header_row rows,
            read_rows header_row rows [] [] = Returned (metadata_list, targets) ->
            Forall2 (fun row meta_dict =>
                       forall header,
                         meta_dict !! header = expected_value header_row row header)
              rows metadata_list
            /\ targets = concat (map (fun row => cells_named header_row row "target") rows))
    as Hrows.
  { intros header_row rows Hread.
    destruct (read_rows_spec header_row rows [] []) as [Hok Hbad].
    destruct (decide (Forall (fun row => (length header_row <= length row)%nat) rows))
      as [Hall|Hnot].
    - destruct (Hok Hall) as (read & Hread' & Hforall).
      rewrite Hread' in Hread. simpl in Hread. inversion Hread; subst.
      split; [|reflexivity].
      eapply Forall2_impl; [exact Hforall|]. intros row meta_dict [_ H]. exact H.
    - rewrite (Hbad Hnot) in Hread. discriminate. }
  destruct has_header.
  - destruct bulk_data as [|header_row rows]; [discriminate|].
    intros H. exists header_row, rows. split; [reflexivity|]. apply Hrows. exact H.
  - intros H. eexists _, _. split; [reflexivity|]. apply Hrows. exact H.
Qed.

(** ** More on the tree builder *)

Lemma batch_the_bag_loop_concat {T : Type} (n : nat) (w : Z) :
  forall (targets : list T) (index : nat) (current_batch : list T)
         (results : list (list T)),
    n = (index + length targets)%nat ->
    (targets = [] -> current_batch = []) ->
    concat (batch_the_bag_loop n w index targets current_batch results)
    = concat results ++ current_batch ++ targets.
Proof.
  intros targets. induction targets as [|t rest IH]; intros index cur results Hn Hnil.
  - simpl. rewrite (Hnil eq_refl), app_nil_r. reflexivity.
  - simpl.
    destruct ((Z.of_nat (length (cur ++ [t])) =? w)
              || (Z.of_nat index =? Z.of_nat n - 1)) eqn:Hcond.
    + rewrite IH; [|simpl in Hn; lia|reflexivity].
      rewrite concat_app. simpl. rewrite app_nil_r, <- !app_assoc. reflexivity.
    + rewrite IH; [|simpl in Hn; lia|].
      * rewrite <- !app_assoc. reflexivity.
      * intros ->. apply orb_false_iff in Hcond. destruct Hcond as [_ Hlast].
        apply Z.eqb_neq in Hlast. simpl in Hn. lia.
Qed.

Lemma batch_the_bag_concat {T : Type} (targets : list T) (w : Z) :
  concat (batch_the_bag targets w) = targets.
Proof.
  unfold batch_the_bag. rewrite batch_the_bag_loop_concat; auto.
Qed.

Lemma batch_the_bag_loop_single {T : Type} (n : nat) (w : Z) :
  forall (targets : list T) (index : nat) (current_batch : list T)
         (results : list (list T)),
    n = (index + length targets)%nat ->
    targets <> [] ->
    w <= 0 \/ Z.of_nat (length current_batch + length targets) <= w ->
    batch_the_bag_loop n w index targets current_batch results
    = results ++ [current_batch ++ targets].
Proof.
  intros targets. induction targets as [|t rest IH]; intros index cur results Hn Hne Hw;
    [congruence|].
  simpl. destruct rest as [|t' rest'].
  - assert ((Z.of_nat index =? Z.of_nat n - 1) = true) as ->
      by (apply Z.eqb_eq; simpl in Hn; lia).
    rewrite orb_true_r. reflexivity.
  - assert ((Z.of_nat (length (cur ++ [t])) =? w) = false) as ->.
    { apply Z.eqb_neq. rewrite length_app. simpl in *. lia. }
    assert ((Z.of_nat index =? Z.of_nat n - 1) = false) as ->
      by (apply Z.eqb_neq; simpl in Hn; lia).
    simpl orb. cbv iota.
    rewrite IH; [|simpl in *; lia|discriminate|].
    + rewrite <- app_assoc. reflexivity.
    + rewrite length_app. simpl in *. lia.
Qed.

Lemma batch_the_bag_single {T : Type} (targets : list T) (w : Z) :
  targets <> [] ->
  w <= 0 \/ Z.of_nat (length targets) <= w ->
  batch_the_bag targets w = [targets].
Proof.
  intros Hne Hw. unfold batch_the_bag.
  rewrite batch_the_bag_loop_single; auto.
Qed.

(** X7: for every width, also 0 or negative, [batch_the_bag] loses and
    reorders nothing: the batches concatenated are the input; and the empty
    list gives no batch at all. *)
Theorem batch_the_bag_keeps_targets {T : Type} (targets : list T) (leaf_width : Z) :
  concat (batch_the_bag targets leaf_width) = targets
  /\ (targets = [] -> batch_the_bag targets leaf_width = []).
Proof.
  split; [apply batch_the_bag_concat|]. intros ->. reflexivity.
Qed.

(** X8: when the width is 0 or negative, or at least the number of targets,
    [batch_the_bag] puts a non-empty list into one batch. *)
Theorem batch_the_bag_single_batch {T : Type} (targets : list T) (leaf_width : Z) :
  targets <> [] ->
  leaf_width <= 0 \/ Z.of_nat (length targets) <= leaf_width ->
  batch_the_bag targets leaf_width = [targets].
Proof. apply batch_the_bag_single. Qed.

Lemma full_but_last_count {T : Type} (w : Z) (bs : list (list T)) :
  1 <= w -> full_but_last w bs ->
  Z.of_nat (length bs) = (Z.of_nat (length (concat bs)) + w - 1) / w.
Proof.
  intros Hw. induction bs as [|b rest IH]; intros Hfull.
  - simpl. symmetry. apply Z.div_small. lia.
  - simpl in Hfull. destruct rest as [|b' rest'].
    + simpl. rewrite app_nil_r.
      change (Z.of_nat (length [b])) with 1.
      apply (Z.div_unique _ _ 1 (Z.of_nat (length b) - 1)); lia.
    + destruct Hfull as [Hb Hrest]. specialize (IH Hrest).
      change (concat (b :: b' :: rest')) with (b ++ concat (b' :: rest')).
      rewrite length_app, Nat2Z.inj_add, Hb.
      replace (w + Z.of_nat (length (concat (b' :: rest'))) + w - 1)
        with (Z.of_nat (length (concat (b' :: rest'))) + w - 1 + 1 * w) by lia.
      rewrite Z.div_add by lia. rewrite <- IH.
      change (length (b :: b' :: rest')) with (S (length (b' :: rest'))). lia.
Qed.

(** X9: for a width of at least 1 [batch_the_bag] makes
    ceil(len(targets) / leaf_width) batches. *)
Theorem batch_the_bag_count {T : Type} (targets : list T) (leaf_width : Z) :
  1 <= leaf_width ->
  Z.of_nat (length (batch_the_bag targets leaf_width))
  = (Z.of_nat (length targets) + leaf_width - 1) / leaf_width.
Proof.
  intros Hw. destruct (batch_the_bag_spec targets leaf_width Hw) as [Hcat Hfull].
  rewrite (full_but_last_count leaf_width _ Hw Hfull), Hcat. reflexivity.
Qed.

Section MoreBuilderFacts.
Variable get_tree_hash : Program -> list byte.
Variable int_to_bytes : Z -> list byte.

Local Abbreviation record_parents := (record_parents get_tree_hash).
Local Abbreviation process_batches := (process_batches get_tree_hash int_to_bytes).
Local Abbreviation secure_the_bag := (secure_the_bag get_tree_hash int_to_bytes).
Local Abbreviation batch_puzzle := (batch_puzzle int_to_bytes).
Local Abbreviation parent_target := (parent_target get_tree_hash int_to_bytes).
Local Abbreviation all_batches := (all_batches get_tree_hash int_to_bytes).
Local Abbreviation recorded := (recorded get_tree_hash int_to_bytes).

Lemma secure_the_bag_root_batch (fuel : nat) :
  forall (targets : list Target.t) (w : Z) (lookup lookup' : gmap string TargetCoin.t)
         (root : list byte),
    secure_the_bag fuel targets w lookup = Some (lookup', Ok root) ->
    length targets <> 1%nat ->
    exists batch,
      In batch (all_batches fuel targets w)
      /\ root = get_tree_hash (batch_puzzle batch)
      /\ sum_amounts batch = sum_amounts targets
      /\ 0 <= sum_amounts targets <= UINT64_MAX.
Proof.
  induction fuel as [|fuel IH]; intros targets w lookup lookup' root Hrun Hmany;
    [discriminate|].
  rewrite secure_the_bag_step in Hrun by exact Hmany.
  rewrite all_batches_step by exact Hmany.
  destruct (process_batches (batch_the_bag targets w) [] lookup)
    as [lookup1 [results|e]] eqn:Hbatches; [|discriminate].
  destruct (process_batches_written _ _ _ _ _ _ _ Hbatches) as (Hres & Hranges & _).
  simpl in Hres. subst results.
  pose proof (batch_the_bag_concat targets w) as Hcat.
  destruct (decide (length (map parent_target (batch_the_bag targets w)) = 1%nat))
    as [Hone|Hmore].
  - destruct (batch_the_bag targets w) as [|batch [|? ?]] eqn:Hbs; try discriminate.
    simpl in Hcat. rewrite app_nil_r in Hcat. subst batch.
    destruct fuel as [|fuel]; [discriminate|].
    simpl in Hrun. inversion Hrun; subst.
    exists targets. split; [left; reflexivity|]. split; [reflexivity|].
    split; [reflexivity|]. apply Hranges. left. reflexivity.
  - destruct (IH _ _ _ _ _ Hrun Hmore) as (batch & Hin & Hroot & Hsum & Hrange).
    rewrite sum_amounts_parents, Hcat in Hsum, Hrange.
    exists batch. split; [apply in_or_app; right; exact Hin|]. auto.
Qed.

(** X10: value is conserved up to the root: when [secure_the_bag] returns a
    root for more than one target (or none), the root is the puzzle hash of a
    batch of the last level whose amounts add up to the sum of all target
    amounts, this sum fits [uint64], and with every amount 1 it is the number
    of targets. *)
Theorem secure_the_bag_root_amount (fuel : nat) (targets : list Target.t)
    (leaf_width : Z) (lookup lookup' : gmap string TargetCoin.t) (root : list byte) :
  secure_the_bag fuel targets leaf_width lookup = Some (lookup', Ok root) ->
  length targets <> 1%nat ->
  exists batch,
    In batch (all_batches fuel targets leaf_width)
    /\ root = get_tree_hash (batch_puzzle batch)
    /\ sum_amounts batch = sum_amounts targets
    /\ 0 <= sum_amounts targets <= UINT64_MAX
    /\ (Forall (fun t => Target.amount t = 1) targets ->
        sum_amounts batch = Z.of_nat (length targets)).
Proof.
  intros Hrun Hmany.
  destruct (secure_the_bag_root_batch _ _ _ _ _ _ Hrun Hmany)
    as (batch & Hin & Hroot & Hsum & Hrange).
  exists batch. repeat split; try assumption; try lia.
  intros Hones. rewrite Hsum. clear -Hones.
  induction Hones as [|t ts Ht _ IH]; [reflexivity|].
  change (sum_amounts (t :: ts)) with (Target.amount t + sum_amounts ts).
  rewrite IH, Ht. simpl length. lia.
Qed.

Lemma process_batches_overflow (done : list (list Target.t)) :
  forall (bad : list Target.t) (rest : list (list Target.t)) (results : list Target.t)
         (lookup : gmap string TargetCoin.t),
    (forall batch, In batch done -> 0 <= sum_amounts batch <= UINT64_MAX) ->
    ~ (0 <= sum_amounts bad <= UINT64_MAX) ->
    process_batches (done ++ bad :: rest) results lookup
    = (recorded done lookup, Raise ValueError).
Proof.
  induction done as [|batch done IH]; intros bad rest results lookup Hdone Hbad.
  - simpl app. rewrite process_batches_cons.
    unfold uint64. destruct (0 <=? sum_amounts bad) eqn:H0;
      destruct (sum_amounts bad <=? UINT64_MAX) eqn:H1; simpl; try reflexivity.
    apply Z.leb_le in H0. apply Z.leb_le in H1. exfalso. apply Hbad. lia.
  - change ((batch :: done) ++ bad :: rest) with (batch :: (done ++ bad :: rest)).
    rewrite process_batches_cons.
    rewrite uint64_in_range by (apply Hdone; left; reflexivity).
    rewrite IH; [reflexivity| |exact Hbad].
    intros b Hb. apply Hdone. right. exact Hb.
Qed.

(** X11: when the amounts of a batch of the first level do not fit [uint64]
    while those of the batches before it do, [secure_the_bag] raises the
    range error at that batch, and the dictionary it was given already holds
    the entries of the batches before it: the error leaves a partly written
    table behind. *)
Theorem secure_the_bag_overflow (fuel : nat) (targets : list Target.t)
    (leaf_width : Z) (lookup : gmap string TargetCoin.t)
    (done : list (list Target.t)) (bad : list Target.t) (rest : list (list Target.t)) :
  length targets <> 1%nat ->
  batch_the_bag targets leaf_width = done ++ bad :: rest ->
  (forall batch, In batch done -> 0 <= sum_amounts batch <= UINT64_MAX) ->
  ~ (0 <= sum_amounts bad <= UINT64_MAX) ->
  secure_the_bag (S fuel) targets leaf_width lookup
  = Some (recorded done lookup, Raise ValueError).
Proof.
  intros Hmany Hbs Hdone Hbad.
  rewrite secure_the_bag_step by exact Hmany.
  rewrite Hbs, process_batches_overflow by assumption. reflexivity.
Qed.

(** X12: the loop that records the parent of a batch in the dictionary
    changes the keys of the batch's members only: a puzzle hash of no member
    keeps its entry, and the puzzle hash of a member is bound to a coin with
    the batch's puzzle, its tree hash and the batch amount. *)
Theorem record_parents_lookup (batch : list Target.t) (puzzle : Program) (amount : Z)
    (lookup : gmap string TargetCoin.t) (puzzle_hash : list byte) :
  ((forall t, In t batch -> Target.puzzle_hash t <> puzzle_hash) ->
   record_parents batch puzzle amount lookup !! hex puzzle_hash
   = lookup !! hex puzzle_hash)
  /\ ((exists t, In t batch /\ Target.puzzle_hash t = puzzle_hash) ->
      exists t,
        In t batch /\ Target.puzzle_hash t = puzzle_hash
        /\ record_parents batch puzzle amount lookup !! hex puzzle_hash
           = Some (TargetCoin.mk t puzzle (get_tree_hash puzzle) amount)).
Proof.
  destruct (record_parents_frame get_tree_hash batch puzzle amount lookup
              (hex puzzle_hash)) as [[Hsame Hnot]|(t & Hin & Hkey & Hlook)].
  - split; [intros _; exact Hsame|].
    intros (t & Hin & <-). exfalso. exact (Hnot t Hin eq_refl).
  - apply hex_inj in Hkey. split.
    + intros Hnone. exfalso. apply (Hnone t Hin). symmetry. exact Hkey.
    + intros _. exists t. auto.
Qed.

End MoreBuilderFacts.

Section FlatTree.
Variable std_hash : list byte -> list byte.
Variable get_tree_hash : Program -> list byte.
Variable int_to_bytes : Z -> list byte.

(** X13: building and resolving compose: for at least two targets in one
    batch (width 0 or negative, or at least their number) whose amounts fit
    [uint64], [secure_the_bag] on an empty dictionary returns the hash of the
    batch puzzle as root, and [parent_of_puzzle_hash] on that dictionary
    resolves every target to the spend of the root coin: parent identity the
    genesis coin, puzzle hash the root, amount 0, the batch puzzle revealed
    with an empty solution. *)
Theorem flat_tree_resolves_to_root (fuel depth : nat) (targets : list Target.t)
    (leaf_width : Z) (genesis_coin_name : list byte) (t : Target.t) :
  (2 <= length targets)%nat ->
  leaf_width <= 0 \/ Z.of_nat (length targets) <= leaf_width ->
  0 <= sum_amounts targets <= UINT64_MAX ->
  (forall t', In t' targets ->
     Target.puzzle_hash t' <> get_tree_hash (batch_puzzle int_to_bytes targets)) ->
  In t targets ->
  exists lookup,
    secure_the_bag get_tree_hash int_to_bytes (S (S fuel)) targets leaf_width ∅
    = Some (lookup, Ok (get_tree_hash (batch_puzzle int_to_bytes targets)))
    /\ parent_of_puzzle_hash std_hash int_to_bytes (S (S depth)) genesis_coin_name
         (Target.puzzle_hash t) lookup
       = Some (Some (CoinSpend.mk
                       (Coin.mk genesis_coin_name
                          (get_tree_hash (batch_puzzle int_to_bytes targets)) 0)
                       (batch_puzzle int_to_bytes targets)
                       (Program_to int_to_bytes (PyList []))),
               std_hash (genesis_coin_name
                         ++ get_tree_hash (batch_puzzle int_to_bytes targets)
                         ++ int_to_bytes 0)).
Proof.
  intros Hlen Hw Hrange Hfresh Hin.
  assert (targets <> []) as Hne by (destruct targets; [simpl in Hlen; lia|discriminate]).
  exists (record_parents get_tree_hash targets (batch_puzzle int_to_bytes targets)
            (sum_amounts targets) ∅).
  split.
  - rewrite secure_the_bag_step by lia.
    rewrite (batch_the_bag_single targets leaf_width Hne Hw).
    rewrite process_batches_cons, uint64_in_range by exact Hrange.
    rewrite process_batches_nil. reflexivity.
  - destruct (record_parents_member get_tree_hash targets
                (batch_puzzle int_to_bytes targets) (sum_amounts targets) ∅ t Hin)
      as (t' & Hin' & _ & Hlook).
    assert (record_parents get_tree_hash targets (batch_puzzle int_to_bytes targets)
              (sum_amounts targets) ∅
            !! hex (get_tree_hash (batch_puzzle int_to_bytes targets)) = None) as Hroot.
    { destruct (record_parents_frame get_tree_hash targets
                  (batch_puzzle int_to_bytes targets) (sum_amounts targets) ∅
                  (hex (get_tree_hash (batch_puzzle int_to_bytes targets))))
        as [[Hsame _]|(t0 & Hin0 & Hkey & _)].
      - rewrite Hsame. apply lookup_empty.
      - apply hex_inj in Hkey. exfalso. apply (Hfresh t0 Hin0). symmetry. exact Hkey. }
    erewrite parent_of_puzzle_hash_child; [|exact Hlook|].
    + simpl. rewrite decide_True by reflexivity. reflexivity.
    + simpl TargetCoin.puzzle_hash. apply parent_of_puzzle_hash_root. exact Hroot.
Qed.

End FlatTree.

(** ** More on the unwind planner *)

Section PlannerFacts.
Variable std_hash : list byte -> list byte.
Variable int_to_bytes : Z -> list byte.
Variable ledger : list byte -> option CoinRecord.t.
Variable g : list byte.
Variable lookup : gmap string TargetCoin.t.

Local Abbreviation Coin_name := (Coin_name std_hash int_to_bytes).
Local Abbreviation parent_of_puzzle_hash := (parent_of_puzzle_hash std_hash int_to_bytes).
Local Abbreviation get_unwind := (get_unwind std_hash int_to_bytes).
Local Abbreviation unwind_the_bag := (unwind_the_bag std_hash int_to_bytes).
Local Abbreviation walk := (walk std_hash int_to_bytes ledger g lookup).
Local Abbreviation resolves := (resolves std_hash int_to_bytes g lookup).
Local Abbreviation ancestor_state := (ancestor_state std_hash int_to_bytes ledger).

Lemma parent_of_puzzle_hash_no_spend (fuel : nat) (h name : list byte) :
  parent_of_puzzle_hash fuel g h lookup = Some (None, name) ->
  name = g /\ lookup !! hex h = None.
Proof.
  destruct fuel as [|fuel]; [discriminate|]. simpl.
  destruct (lookup !! hex h) as [parent|]; [|intros H; inversion H; auto].
  destruct (parent_of_puzzle_hash fuel g (TargetCoin.puzzle_hash parent) lookup)
    as [[sp pci]|]; discriminate.
Qed.

Lemma ancestor_state_cases (coin_spend : CoinSpend.t) :
  ancestor_state coin_spend = unknown
  \/ ancestor_state coin_spend = unspent
  \/ ancestor_state coin_spend = spent.
Proof. destruct (ancestor_state coin_spend); auto. Qed.

Lemma ranked_walk_exists (rank : list byte -> nat) :
  ranked rank lookup -> forall h, exists spends, walk h spends.
Proof.
  intros Hranked. destruct (rank_bound rank lookup) as [bound Hbound].
  assert (forall k h, (bound + 1 - rank h <= k)%nat -> exists spends, walk h spends)
    as Hmain.
  { induction k as [|k IH]; intros h Hk;
      destruct (ranked_terminates std_hash int_to_bytes rank lookup g Hranked h)
        as (fuel & [[cs|] name] & Hres).
    - destruct (parent_of_puzzle_hash_spend _ _ _ _ _ _ _ _ Hres)
        as (_ & parent & _ & _ & Hlook & _).
      specialize (Hranked _ _ Hlook). specialize (Hbound _ _ Hlook). lia.
    - exists []. eapply walk_no_parent. exists fuel. exact Hres.
    - destruct (parent_of_puzzle_hash_spend _ _ _ _ _ _ _ _ Hres)
        as (_ & parent & _ & _ & Hlook & Hph & _).
      destruct (ancestor_state_cases cs) as [Hstate|[Hstate|Hstate]].
      + destruct (IH (Coin.puzzle_hash (CoinSpend.coin cs))) as [rest Hrest].
        { rewrite Hph. specialize (Hranked _ _ Hlook). lia. }
        exists (cs :: rest). eapply walk_unknown; [exists fuel; exact Hres| |]; eassumption.
      + exists [cs]. eapply walk_unspent; [exists fuel; exact Hres|exact Hstate].
      + exists []. eapply walk_spent; [exists fuel; exact Hres|exact Hstate].
    - exists []. eapply walk_no_parent. exists fuel. exact Hres. }
  intros h. apply (Hmain (bound + 1 - rank h)%nat). lia.
Qed.

(** Where a walk ends: its last spend. *)
Lemma walk_last (current : list byte) (spends : list CoinSpend.t) :
  walk current spends ->
  forall before last,
    spends = before ++ [last] ->
    Forall (fun coin_spend => ancestor_state coin_spend = unknown) before
    /\ (ancestor_state last = unspent
        \/ ancestor_state last = unknown
           /\ (lookup !! hex (Coin.puzzle_hash (CoinSpend.coin last)) = None
               /\ Coin.parent_coin_info (CoinSpend.coin last) = g
               \/ exists next name,
                    resolves (Coin.puzzle_hash (CoinSpend.coin last)) (Some next, name)
                    /\ ancestor_state next = spent)).
Proof.
  induction 1 as [current name Hres
                 |current cs name rest [fuel Hres] Hstate Hrest IH
                 |current cs name Hres Hstate
                 |current cs name Hres Hstate]; intros before last Heq.
  - destruct before; discriminate.
  - destruct before as [|b before]; simpl in Heq.
    + inversion Heq; subst. clear Heq. split; [constructor|]. right.
      split; [exact Hstate|].
      inversion Hrest as [? name' [fuel' Hres']| | |? next name' Hres' Hspent]; subst.
      * left. destruct (parent_of_puzzle_hash_no_spend _ _ _ Hres') as [-> Hnone].
        split; [exact Hnone|].
        destruct (parent_of_puzzle_hash_spend _ _ _ _ _ _ _ _ Hres)
          as (_ & parent & fuel0 & sp & _ & Hph & _ & Hrec).
        rewrite <- Hph in Hrec.
        pose proof (parent_of_puzzle_hash_functional _ _ _ _ _ _ _ _ _ Hrec Hres') as E.
        inversion E. reflexivity.
      * right. exists next, name'. auto.
    + inversion Heq; subst. destruct (IH before last eq_refl) as [Hall Hlast].
      split; [constructor; assumption|exact Hlast].
  - destruct before as [|b [|? ?]]; try discriminate.
    inversion Heq; subst. split; [constructor|]. left. exact Hstate.
  - destruct before; discriminate.
Qed.

(** X14: in the list [unwind_the_bag] returns only the first spend can be of
    a coin that exists: every later coin is unknown to the ledger, and the
    first is unspent, or is unknown and either the root of the tree (no
    entry for its puzzle hash, parent identity the genesis coin) or the child
    of a spent coin. *)
Theorem unwind_the_bag_starts_at_frontier (iterations fuel : nat) (target : list byte)
    (first : CoinSpend.t) (rest : list CoinSpend.t) :
  unwind_the_bag iterations fuel ledger target g lookup = Some (first :: rest) ->
  Forall (fun coin_spend => ancestor_state coin_spend = unknown) rest
  /\ (ancestor_state first = unspent
      \/ ancestor_state first = unknown
         /\ (lookup !! hex (Coin.puzzle_hash (CoinSpend.coin first)) = None
             /\ Coin.parent_coin_info (CoinSpend.coin first) = g
             \/ exists next name,
                  resolves (Coin.puzzle_hash (CoinSpend.coin first)) (Some next, name)
                  /\ ancestor_state next = spent)).
Proof.
  unfold unwind_the_bag. intros Hrun.
  destruct (get_unwind iterations fuel ledger g lookup target) as [walked|] eqn:Hget;
    [|discriminate].
  inversion Hrun as [Hrev]. clear Hrun.
  unfold get_unwind in Hget.
  destruct (get_unwind_loop_sound _ _ _ _ _ _ _ _ _ _ Hget) as (walked' & Heq & Hwalk).
  simpl in Heq. subst walked'.
  assert (walked = rev rest ++ [first]) as Hwalked.
  { rewrite <- (rev_involutive walked), Hrev. reflexivity. }
  destruct (walk_last _ _ Hwalk (rev rest) first Hwalked) as [Hall Hfirst].
  split; [|exact Hfirst].
  apply List.Forall_forall. intros cs Hin.
  rewrite List.Forall_forall in Hall. apply Hall. apply in_rev in Hin. exact Hin.
Qed.

End PlannerFacts.

Section PlannerTermination.
Variable std_hash : list byte -> list byte.
Variable get_tree_hash : Program -> list byte.
Variable int_to_bytes : Z -> list byte.
Variable rank : list byte -> nat.

(** X15: on a dictionary [secure_the_bag] has filled from empty, in whose
    tree no puzzle hash is its own ancestor (the hash of each batch puzzle of
    the tree ranks above the puzzle hashes of that batch's members),
    [get_unwind] returns a list for every target puzzle hash, genesis coin
    and ledger snapshot. *)
Theorem get_unwind_terminates (fuel : nat) (targets : list Target.t) (leaf_width : Z)
    (lookup : gmap string TargetCoin.t) (outcome : result (list byte))
    (ledger : list byte -> option CoinRecord.t) (genesis_coin_id target : list byte) :
  secure_the_bag get_tree_hash int_to_bytes fuel targets leaf_width ∅
  = Some (lookup, outcome) ->
  (forall batch t,
     In batch (all_batches get_tree_hash int_to_bytes fuel targets leaf_width) ->
     In t batch ->
     (rank (Target.puzzle_hash t)
      < rank (get_tree_hash (batch_puzzle int_to_bytes batch)))%nat) ->
  exists iterations fuel' spends,
    get_unwind std_hash int_to_bytes iterations fuel' ledger genesis_coin_id lookup target
    = Some spends.
Proof.
  intros Hbuilt Hlevels.
  assert (ranked rank lookup) as Hranked.
  { eapply (secure_the_bag_ranked get_tree_hash int_to_bytes rank);
      [exact Hlevels| |exact Hbuilt].
    intros h p Hh. rewrite lookup_empty in Hh. discriminate. }
  destruct (ranked_walk_exists std_hash int_to_bytes ledger genesis_coin_id lookup
              rank Hranked target) as [spends Hwalk].
  destruct (get_unwind_loop_complete _ _ _ _ _ _ _ Hwalk) as (iterations & fuel' & Hloop).
  exists iterations, fuel', spends. apply (Hloop []).
Qed.

End PlannerTermination.

(** ** Instances of the further properties *)

Lemma unspent_coin_exists_state_witness :
  (forall coin_record,
     SampleNode.client 2 [x0a] = Some coin_record ->
     0 <= CoinRecord.spent_block_index coin_record)
  /\ unspent_coin_exists SampleNode.client 2 [x0a]
     = (match coin_state (SampleNode.client 2) [x0a] with
        | unknown => Returned false
        | unspent => Returned true
        | spent => Raised (AlreadySpent [x0a])
        end, 3%nat).
Proof.
  assert (forall coin_record,
            SampleNode.client 2 [x0a] = Some coin_record ->
            0 <= CoinRecord.spent_block_index coin_record) as Hindex.
  { intros coin_record H. vm_compute in H. inversion H; subst. simpl. lia. }
  split; [exact Hindex|].
  exact (unspent_coin_exists_state SampleNode.client 2 [x0a] Hindex).
Defined.

Example wait_for_unspent_coin_sample :
  wait_for_unspent_coin 5 SampleNode.client 0 [x0a] = Some (Returned tt, 3%nat)
  /\ wait_for_unspent_coin 5 SampleNode.client 4 [x0a]
     = Some (Raised (AlreadySpent [x0a]), 5%nat)
  /\ wait_for_coin_spend 5 SampleNode.client 0 [x0a] = Some (tt, 5%nat)
  /\ wait_for_coin_spend 4 SampleNode.client 0 [x0a] = None.
Proof. repeat split; reflexivity. Qed.

Lemma read_metadata_csv_raises_index_error_witness :
  read_metadata_csv SampleNode.short_file true false = Raised IndexError
  /\ IndexError = IndexError
  /\ (true = true /\ SampleNode.short_file = []
      \/ exists header_row rows row,
           header_and_rows SampleNode.short_file true false = Some (header_row, rows)
           /\ In row rows /\ (length row < length header_row)%nat).
Proof.
  assert (read_metadata_csv SampleNode.short_file true false = Raised IndexError)
    as Hraise by (vm_compute; reflexivity).
  split; [exact Hraise|].
  exact (read_metadata_csv_raises_index_error SampleNode.short_file true false
           IndexError Hraise).
Defined.

Lemma read_metadata_csv_contents_witness :
  exists metadata_list targets,
    read_metadata_csv SampleNode.file true false = Returned (metadata_list, targets)
    /\ targets = ["t1"; "t2"]%string
    /\ exists header_row rows,
         header_and_rows SampleNode.file true false = Some (header_row, rows)
         /\ Forall2 (fun row meta_dict =>
                       forall header,
                         meta_dict !! header = expected_value header_row row header)
              rows metadata_list.
Proof.
  assert (exists metadata_list targets,
            read_metadata_csv SampleNode.file true false
            = Returned (metadata_list, targets)) as (metadata_list & targets & Hread)
    by (vm_compute; eexists; eexists; reflexivity).
  exists metadata_list, targets. split; [exact Hread|].
  destruct (read_metadata_csv_contents SampleNode.file true false metadata_list targets
              Hread) as (header_row & rows & Hrows & Hdicts & Htargets).
  split.
  - rewrite Htargets. vm_compute in Hrows. inversion Hrows; subst. reflexivity.
  - exists header_row, rows. split; assumption.
Defined.

Lemma batch_the_bag_single_batch_witness :
  [Sample.A; Sample.B; Sample.C] <> []
  /\ (0 <= 0 \/ Z.of_nat (length [Sample.A; Sample.B; Sample.C]) <= 0)
  /\ batch_the_bag [Sample.A; Sample.B; Sample.C] 0
     = [[Sample.A; Sample.B; Sample.C]].
Proof.
  assert ([Sample.A; Sample.B; Sample.C] <> []) as Hne by discriminate.
  assert (0 <= 0 \/ Z.of_nat (length [Sample.A; Sample.B; Sample.C]) <= 0) as Hw
    by (left; lia).
  split; [exact Hne|]. split; [exact Hw|].
  exact (batch_the_bag_single_batch [Sample.A; Sample.B; Sample.C] 0 Hne Hw).
Defined.

Lemma batch_the_bag_count_witness :
  1 <= 2
  /\ Z.of_nat (length (batch_the_bag [Sample.A; Sample.B; Sample.C] 2))
     = (Z.of_nat (length [Sample.A; Sample.B; Sample.C]) + 2 - 1) / 2.
Proof.
  assert (1 <= 2) as Hw by lia.
  split; [exact Hw|].
  exact (batch_the_bag_count [Sample.A; Sample.B; Sample.C] 2 Hw).
Defined.

Lemma secure_the_bag_root_amount_witness :
  secure_the_bag Sample.tree_hash Sample.int_to_bytes 3
    [Sample.A; Sample.B; Sample.C] 2 ∅ = Some (Sample.table, Ok Sample.root)
  /\ length [Sample.A; Sample.B; Sample.C] <> 1%nat
  /\ exists batch,
       In batch (all_batches Sample.tree_hash Sample.int_to_bytes 3
                   [Sample.A; Sample.B; Sample.C] 2)
       /\ Sample.root = Sample.tree_hash (batch_puzzle Sample.int_to_bytes batch)
       /\ sum_amounts batch = 52.
Proof.
  assert (secure_the_bag Sample.tree_hash Sample.int_to_bytes 3
            [Sample.A; Sample.B; Sample.C] 2 ∅ = Some (Sample.table, Ok Sample.root))
    as Hbuilt by (vm_compute; reflexivity).
  assert (length [Sample.A; Sample.B; Sample.C] <> 1%nat) as Hmany by discriminate.
  split; [exact Hbuilt|]. split; [exact Hmany|].
  destruct (secure_the_bag_root_amount Sample.tree_hash Sample.int_to_bytes 3
              [Sample.A; Sample.B; Sample.C] 2 ∅ Sample.table Sample.root Hbuilt Hmany)
    as (batch & Hin & Hroot & Hsum & _).
  exists batch. split; [exact Hin|]. split; [exact Hroot|]. rewrite Hsum. reflexivity.
Defined.

Lemma secure_the_bag_overflow_witness :
  length [Sample.B; Sample.C; Sample.A; SampleMore.E] <> 1%nat
  /\ batch_the_bag [Sample.B; Sample.C; Sample.A; SampleMore.E] 2
     = [[Sample.B; Sample.C]] ++ [Sample.A; SampleMore.E] :: []
  /\ (forall batch,
        In batch [[Sample.B; Sample.C]] -> 0 <= sum_amounts batch <= UINT64_MAX)
  /\ ~ (0 <= sum_amounts [Sample.A; SampleMore.E] <= UINT64_MAX)
  /\ secure_the_bag Sample.tree_hash Sample.int_to_bytes 1
       [Sample.B; Sample.C; Sample.A; SampleMore.E] 2 ∅
     = Some (recorded Sample.tree_hash Sample.int_to_bytes [[Sample.B; Sample.C]] ∅,
             Raise ValueError).
Proof.
  assert (length [Sample.B; Sample.C; Sample.A; SampleMore.E] <> 1%nat) as Hmany
    by discriminate.
  assert (batch_the_bag [Sample.B; Sample.C; Sample.A; SampleMore.E] 2
          = [[Sample.B; Sample.C]] ++ [Sample.A; SampleMore.E] :: []) as Hbatches
    by reflexivity.
  assert (forall batch,
            In batch [[Sample.B; Sample.C]] -> 0 <= sum_amounts batch <= UINT64_MAX)
    as Hdone.
  { intros batch [<-|[]]. vm_compute. split; discriminate. }
  assert (~ (0 <= sum_amounts [Sample.A; SampleMore.E] <= UINT64_MAX)) as Hbad.
  { intros [_ H]. vm_compute in H. apply H. reflexivity. }
  split; [exact Hmany|]. split; [exact Hbatches|]. split; [exact Hdone|].
  split; [exact Hbad|].
  exact (secure_the_bag_overflow Sample.tree_hash Sample.int_to_bytes 0
           [Sample.B; Sample.C; Sample.A; SampleMore.E] 2 ∅
           [[Sample.B; Sample.C]] [Sample.A; SampleMore.E] [] Hmany Hbatches Hdone Hbad).
Defined.

Lemma flat_tree_resolves_to_root_witness :
  (2 <= length [Sample.A; Sample.B; Sample.C])%nat
  /\ (5 <= 0 \/ Z.of_nat (length [Sample.A; Sample.B; Sample.C]) <= 5)
  /\ 0 <= sum_amounts [Sample.A; Sample.B; Sample.C] <= UINT64_MAX
  /\ (forall t',
        In t' [Sample.A; Sample.B; Sample.C] ->
        Target.puzzle_hash t'
        <> Sample.tree_hash (batch_puzzle Sample.int_to_bytes
                               [Sample.A; Sample.B; Sample.C]))
  /\ In Sample.B [Sample.A; Sample.B; Sample.C]
  /\ exists lookup,
       secure_the_bag Sample.tree_hash Sample.int_to_bytes 2
         [Sample.A; Sample.B; Sample.C] 5 ∅
       = Some (lookup,
               Ok (Sample.tree_hash (batch_puzzle Sample.int_to_bytes
                                       [Sample.A; Sample.B; Sample.C])))
       /\ parent_of_puzzle_hash Sample.std_hash Sample.int_to_bytes 2 Sample.genesis
            (Target.puzzle_hash Sample.B) lookup
          = Some (Some (CoinSpend.mk
                          (Coin.mk Sample.genesis
                             (Sample.tree_hash (batch_puzzle Sample.int_to_bytes
                                                  [Sample.A; Sample.B; Sample.C])) 0)
                          (batch_puzzle Sample.int_to_bytes
                             [Sample.A; Sample.B; Sample.C])
                          (Program_to Sample.int_to_bytes (PyList []))),
                  Sample.std_hash
                    (Sample.genesis
                     ++ Sample.tree_hash (batch_puzzle Sample.int_to_bytes
                                            [Sample.A; Sample.B; Sample.C])
                     ++ Sample.int_to_bytes 0)).
Proof.
  assert (2 <= length [Sample.A; Sample.B; Sample.C])%nat as Hlen by (simpl; lia).
  assert (5 <= 0 \/ Z.of_nat (length [Sample.A; Sample.B; Sample.C]) <= 5) as Hw
    by (right; simpl; lia).
  assert (0 <= sum_amounts [Sample.A; Sample.B; Sample.C] <= UINT64_MAX) as Hrange
    by (vm_compute; split; discriminate).
  assert (forall t',
            In t' [Sample.A; Sample.B; Sample.C] ->
            Target.puzzle_hash t'
            <> Sample.tree_hash (batch_puzzle Sample.int_to_bytes
                                   [Sample.A; Sample.B; Sample.C])) as Hfresh.
  { intros t' [<-|[<-|[<-|[]]]]; vm_compute; discriminate. }
  assert (In Sample.B [Sample.A; Sample.B; Sample.C]) as Hin by (right; left; reflexivity).
  split; [exact Hlen|]. split; [exact Hw|]. split; [exact Hrange|].
  split; [exact Hfresh|]. split; [exact Hin|].
  exact (flat_tree_resolves_to_root Sample.std_hash Sample.tree_hash Sample.int_to_bytes
           0 0 [Sample.A; Sample.B; Sample.C] 5 Sample.genesis Sample.B
           Hlen Hw Hrange Hfresh Hin).
Defined.

Lemma unwind_the_bag_starts_at_frontier_witness :
  exists first rest,
    unwind_the_bag Sample.std_hash Sample.int_to_bytes 3 3 Sample.empty_ledger
      (Target.puzzle_hash Sample.A) Sample.genesis Sample.table
    = Some (first :: rest)
    /\ Forall (fun coin_spend =>
                 ancestor_state Sample.std_hash Sample.int_to_bytes Sample.empty_ledger
                   coin_spend = unknown) rest
    /\ Coin.parent_coin_info (CoinSpend.coin first) = Sample.genesis.
Proof.
  assert (exists first rest,
            unwind_the_bag Sample.std_hash Sample.int_to_bytes 3 3 Sample.empty_ledger
              (Target.puzzle_hash Sample.A) Sample.genesis Sample.table
            = Some (first :: rest)) as (first & rest & Hrun)
    by (vm_compute; eexists; eexists; reflexivity).
  exists first, rest. split; [exact Hrun|].
  destruct (unwind_the_bag_starts_at_frontier Sample.std_hash Sample.int_to_bytes
              Sample.empty_ledger Sample.genesis Sample.table 3 3
              (Target.puzzle_hash Sample.A) first rest Hrun) as [Hrest Hfirst].
  split; [exact Hrest|].
  destruct Hfirst as [Hunspent|[_ [[_ Hgenesis]|(next & name & _ & Hspent)]]].
  - unfold ancestor_state, coin_state, Sample.empty_ledger in Hunspent. discriminate.
  - exact Hgenesis.
  - unfold ancestor_state, coin_state, Sample.empty_ledger in Hspent. discriminate.
Defined.

Lemma get_unwind_terminates_witness :
  secure_the_bag Sample32.tree_hash Sample.int_to_bytes 3
    [Sample32.A; Sample32.B; Sample32.C] 2 ∅ = Some (Sample32.table, Ok Sample32.root)
  /\ (forall batch t,
        In batch (all_batches Sample32.tree_hash Sample.int_to_bytes 3
                    [Sample32.A; Sample32.B; Sample32.C] 2) ->
        In t batch ->
        (Sample32.rank (Target.puzzle_hash t)
         < Sample32.rank
             (Sample32.tree_hash (batch_puzzle Sample.int_to_bytes batch)))%nat)
  /\ exists iterations fuel' spends,
       get_unwind Sample32.std_hash Sample.int_to_bytes iterations fuel'
         Sample32.unspent_ledger Sample32.genesis Sample32.table
         (Target.puzzle_hash Sample32.C)
       = Some spends.
Proof.
  split; [exact sample32_built|]. split; [exact sample32_levels|].
  exact (get_unwind_terminates Sample32.std_hash Sample32.tree_hash Sample.int_to_bytes
           Sample32.rank 3 [Sample32.A; Sample32.B; Sample32.C] 2
           Sample32.table (Ok Sample32.root) Sample32.unspent_ledger Sample32.genesis
           (Target.puzzle_hash Sample32.C) sample32_built sample32_levels).
Defined.
